(** * Watchful: the monitoring root construct of cdk-watchful

    A shallow embedding of [src/watchful.ts].  The [Watchful] constructor and
    its methods only wire objects of the construct framework together, so the
    embedding is a small state-and-exception monad over a store holding the
    framework objects the code allocates or mutates: the construct tree, SNS
    topics, CloudWatch dashboards and stack outputs.  Topics and dashboards
    are shared mutable objects in the source (a caller may pass its own topic
    as [alarmSns]); they live in the store and are named by their location.

    The framework calls can fail, and the constructor then fails with them:
    a construct id that is empty or already taken under its scope, a
    subscriber that is already on the topic or whose construct name is taken
    under it, a dashboard name with a character other than a letter, a
    digit, [-] or [_]. *)

From stdpp Require Import base option list strings gmap.

Local Open Scope string_scope.

(** ** JavaScript values used by the source *)

(** Truthiness of an optional string ([undefined] and the empty string are
    falsy): [js_string o] is the string when [o] is truthy. *)
Definition js_string (o : option string) : option string :=
  match o with
  | Some s => if decide (s = "") then None else Some s
  | None => None
  end.

(** Truthiness of an optional object reference or of [js_string o]: only
    [undefined] is falsy. *)
Definition truthy {A} (o : option A) : bool :=
  match o with
  | Some _ => true
  | None => false
  end.

(** [o === false] on an optional boolean. *)
Definition is_false (o : option bool) : bool :=
  match o with
  | Some false => true
  | _ => false
  end.

(** ** Objects of the construct framework *)

(** A node of the construct tree, as far as the source reads it: its path and
    the region of the stack it belongs to. *)
Record Construct := mkConstruct {
  nodePath : list string;
  stackRegion : string;
}.

Definition slash : Ascii.ascii := Eval cbv in Ascii.ascii_of_nat 47.   (* the character [/] *)
Definition dash : Ascii.ascii := Eval cbv in Ascii.ascii_of_nat 45.    (* the character [-] *)

(** The framework stores a construct id with every path separator [/]
    replaced by [--]. *)
Fixpoint sanitizeId (id : string) : string :=
  match id with
  | EmptyString => EmptyString
  | String c s =>
      if Ascii.eqb c slash then String dash (String dash (sanitizeId s))
      else String c (sanitizeId s)
  end.

(** The child of [scope] named [id]; it lives in the same stack. *)
Definition child (scope : Construct) (id : string) : Construct :=
  {| nodePath := nodePath scope ++ [sanitizeId id];
     stackRegion := stackRegion scope |}.

Module sqs.
Record IQueue := mkQueue { queueArn : string }.

#[global] Instance IQueue_eq_dec : EqDecision IQueue.
Proof. solve_decision. Defined.
End sqs.

Module sns_subscriptions.
Inductive ITopicSubscription :=
| EmailSubscription (emailAddress : string)
| SqsSubscription (queue : sqs.IQueue).

(** What identifies the subscriber of a subscription on a topic: the
    construct id made of the email address, or the queue. *)
Definition subscriberId (s : ITopicSubscription) : string + sqs.IQueue :=
  match s with
  | EmailSubscription e => inl (sanitizeId e)
  | SqsSubscription q => inr q
  end.
End sns_subscriptions.

Module sns.
Record Topic := mkTopic {
  node : list string;
  displayName : option string;
  subscriptions : list sns_subscriptions.ITopicSubscription;
}.

(** [topic.addSubscription(s)] on the object itself. *)
Definition subscribe (s : sns_subscriptions.ITopicSubscription) (t : Topic) : Topic :=
  {| node := node t; displayName := displayName t;
     subscriptions := subscriptions t ++ [s] |}.

(** The subscriber of [s] is already on the topic. *)
Definition subscribed_already (s : sns_subscriptions.ITopicSubscription)
    (t : Topic) : bool :=
  bool_decide (sns_subscriptions.subscriberId s
                 ∈ sns_subscriptions.subscriberId <$> subscriptions t).

(** The construct a subscription adds to the tree.  An email subscription is
    a child of the topic named by the address; a queue subscription is a
    child of the queue, which the store does not hold. *)
Definition subscription_path (s : sns_subscriptions.ITopicSubscription)
    (t : Topic) : option (list string) :=
  match s with
  | sns_subscriptions.EmailSubscription e => Some (node t ++ [sanitizeId e])%list
  | sns_subscriptions.SqsSubscription _ => None
  end.
End sns.

(** Modelled from the spec: the widget and option types of [./api] and
    [./widget/section], which the source imports; a section is a heading with
    optional quick links. *)
Record QuickLink := mkQuickLink { linkTitle : string; linkUrl : string }.

Record SectionOptions := mkSectionOptions { links : option (list QuickLink) }.

Record SectionWidgetProps := mkSectionWidgetProps {
  titleLevel : nat;
  titleMarkdown : string;
  quicklinks : option (list QuickLink);
}.

Module cloudwatch.
Inductive IWidget :=
| SectionWidget (props : SectionWidgetProps)
| Widget (json : string).

Record Dashboard := mkDashboard {
  node : list string;
  dashboardName : option string;
  region : string;           (* dashboard.stack.region *)
  ref : string;              (* (dashboard.node.defaultChild as CfnDashboard).ref *)
  widgets : list IWidget;
}.

Definition addWidgets (ws : list IWidget) (d : Dashboard) : Dashboard :=
  {| node := node d; dashboardName := dashboardName d; region := region d;
     ref := ref d; widgets := widgets d ++ ws |}.

(** The characters the framework accepts in a dashboard name: letters,
    digits, [_] and [-]. *)
Definition name_char (c : Ascii.ascii) : bool :=
  let n := Ascii.nat_of_ascii c in
  (Nat.leb 48 n && Nat.leb n 57) || (Nat.leb 65 n && Nat.leb n 90)
  || (Nat.leb 97 n && Nat.leb n 122) || Nat.eqb n 95 || Nat.eqb n 45.

Definition valid_name (s : string) : bool :=
  forallb name_char (String.list_ascii_of_string s).

Inductive IAlarmAction :=
| SnsAction (topic : nat)
| ArnAction (alarmActionArn : string).

Record Alarm := mkAlarm {
  alarmName : string;
  alarmActions : list IAlarmAction;
}.

(** [alarm.addAlarmAction(...actions)] *)
Definition addAlarmAction (actions : list IAlarmAction) (a : Alarm) : Alarm :=
  {| alarmName := alarmName a; alarmActions := alarmActions a ++ actions |}.
End cloudwatch.

Record CfnOutput := mkCfnOutput {
  outputNode : list string;
  value : string;
}.

(** ** The store and the monad of construction code *)

(** [tree] holds the paths of the constructs registered so far. *)
Record World := mkWorld {
  topics : gmap nat sns.Topic;
  dashboards : gmap nat cloudwatch.Dashboard;
  outputs : list CfnOutput;
  tree : gset (list string);
}.

(** The errors a construction can raise: the one [watchful.ts] throws
    itself, with its message, and those of the framework calls it makes,
    named by their cause. *)
Inductive Error :=
| Error_new (message : string)
| EmptyConstructId (scope : list string)
| DuplicateConstruct (path : list string)
| DuplicateSubscription (topic : list string)
    (subscriber : sns_subscriptions.ITopicSubscription)
| InvalidDashboardName (name : string).

Inductive Completion (A : Type) :=
| Normal (a : A)
| Throw (e : Error).
Arguments Normal {A} a.
Arguments Throw {A} e.

Definition M (A : Type) : Type := World → Completion A * World.

#[global] Instance M_ret : MRet M := λ A a σ, (Normal a, σ).

#[global] Instance M_bind : MBind M := λ A B f m σ,
  match m σ with
  | (Normal a, σ') => f a σ'
  | (Throw e, σ') => (Throw e, σ')
  end.

#[global] Instance M_fmap : FMap M := λ A B f m σ,
  match m σ with
  | (Normal a, σ') => (Normal (f a), σ')
  | (Throw e, σ') => (Throw e, σ')
  end.

Definition throw {A} (e : Error) : M A := λ σ, (Throw e, σ).

(** The store once the construct at [path] is registered in the tree. *)
Definition register (path : list string) (σ : World) : World :=
  {| topics := topics σ; dashboards := dashboards σ; outputs := outputs σ;
     tree := {[path]} ∪ tree σ |}.

Section Framework.
(** The CloudFormation reference the framework hands out for the resource
    of the construct at a path; its value is not fixed by the source. *)
Variable cfnRef : list string → string.

(** [new Construct(scope, id)], also the [super(scope, id)] of a construct
    class: the id must not be empty nor taken under [scope]; the node is
    registered before the rest of the constructor runs. *)
Definition new_Construct (scope : Construct) (id : string) : M Construct :=
  λ σ, let c := child scope id in
       if bool_decide (id = "") then (Throw (EmptyConstructId (nodePath scope)), σ)
       else if bool_decide (nodePath c ∈ tree σ)
       then (Throw (DuplicateConstruct (nodePath c)), σ)
       else (Normal c, register (nodePath c) σ).

(** A new object gets a location of its own in the store. *)
Definition alloc_Topic (T : sns.Topic) : M nat :=
  λ σ, let l := fresh (dom (topics σ)) in
       (Normal l,
        {| topics := <[l := T]> (topics σ); dashboards := dashboards σ;
           outputs := outputs σ; tree := tree σ |}).

Definition alloc_Dashboard (D : cloudwatch.Dashboard) : M nat :=
  λ σ, let l := fresh (dom (dashboards σ)) in
       (Normal l,
        {| topics := topics σ; dashboards := <[l := D]> (dashboards σ);
           outputs := outputs σ; tree := tree σ |}).

Definition add_output (o : CfnOutput) : M () :=
  λ σ, (Normal (),
        {| topics := topics σ; dashboards := dashboards σ;
           outputs := outputs σ ++ [o]; tree := tree σ |}).

(** [new sns.Topic(scope, id, { displayName })]: the topic construct and,
    under it, its resource named [Resource]. *)
Definition new_Topic (scope : Construct) (id : string) (name : option string) : M nat :=
  c ← new_Construct scope id;
  new_Construct c "Resource";;
  alloc_Topic (sns.mkTopic (nodePath c) name []).

(** The name of the subscription construct is taken in the tree. *)
Definition subscription_taken (s : sns_subscriptions.ITopicSubscription)
    (T : sns.Topic) (σ : World) : bool :=
  match sns.subscription_path s T with
  | Some p => bool_decide (p ∈ tree σ)
  | None => false
  end.

(** The tree once the subscription construct is registered. *)
Definition subscription_registered (s : sns_subscriptions.ITopicSubscription)
    (T : sns.Topic) (σ : World) : gset (list string) :=
  match sns.subscription_path s T with
  | Some p => {[p]} ∪ tree σ
  | None => tree σ
  end.

(** [topic.addSubscription(s)] through a reference to the topic; it throws
    when the subscriber is already on the topic, or when the name of the
    subscription construct is taken. *)
Definition addSubscription (t : nat) (s : sns_subscriptions.ITopicSubscription) : M () :=
  λ σ, match topics σ !! t with
       | Some T =>
           if sns.subscribed_already s T || subscription_taken s T σ
           then (Throw (DuplicateSubscription (sns.node T) s), σ)
           else (Normal (),
                 {| topics := alter (sns.subscribe s) t (topics σ);
                    dashboards := dashboards σ; outputs := outputs σ;
                    tree := subscription_registered s T σ |})
       | None => (Normal (), σ)
       end.

(** [new cloudwatch.Dashboard(scope, id, { dashboardName })]: the node is
    registered, then a non-empty name is validated, then the dashboard is
    made, with its resource named [Resource] under it. *)
Definition new_Dashboard (scope : Construct) (id : string) (name : option string)
  : M (nat * cloudwatch.Dashboard) :=
  c ← new_Construct scope id;
  match js_string name with
  | Some n => if cloudwatch.valid_name n then mret ()
              else throw (InvalidDashboardName n)
  | None => mret ()
  end;;
  new_Construct c "Resource";;
  let D := cloudwatch.mkDashboard (nodePath c) name (stackRegion c)
             (cfnRef (nodePath c)) [] in
  l ← alloc_Dashboard D;
  mret (l, D).

(** [dashboard.addWidgets(...ws)] through a reference to the dashboard. *)
Definition Dashboard_addWidgets (d : nat) (ws : list cloudwatch.IWidget) : M () :=
  λ σ, (Normal (),
        {| topics := topics σ;
           dashboards := alter (cloudwatch.addWidgets ws) d (dashboards σ);
           outputs := outputs σ; tree := tree σ |}).

(** [new CfnOutput(scope, id, { value })] *)
Definition new_CfnOutput (scope : Construct) (id : string) (v : string) : M () :=
  c ← new_Construct scope id;
  add_output (mkCfnOutput (nodePath c) v).

(** ** watchful.ts *)

Record WatchfulProps := mkProps {
  alarmEmail : option string;
  alarmSqs : option sqs.IQueue;
  alarmSns : option nat;
  dashboardName : option string;
  alarmActionArns : option (list string);
  dashboard : option bool;
}.

(** [props = { }], the default argument of the constructor. *)
Definition no_props : WatchfulProps := mkProps None None None None None None.

Record Watchful := mkWatchful {
  this_node : Construct;
  this_dash : option nat;
  this_alarmTopic : option nat;
  this_alarmActionArns : list string;
}.

Definition linkForDashboard (d : cloudwatch.Dashboard) : string :=
  "https://console.aws.amazon.com/cloudwatch/home?region=" +:+ cloudwatch.region d
    +:+ "#dashboards:name=" +:+ cloudwatch.ref d.

Definition dashboard_name_error : Error :=
  Error_new "Dashboard name is provided but dashboard creation is disabled".

Definition Watchful_new (scope : Construct) (id : string) (props : WatchfulProps)
  : M Watchful :=
  this ← new_Construct scope id;
  let arns := default [] (alarmActionArns props) in
  created ← (if (truthy (js_string (alarmEmail props)) || truthy (alarmSqs props))
                && negb (truthy (alarmSns props))
             then Some <$> new_Topic this "AlarmTopic" (Some "Watchful Alarms")
             else mret None);
  let alarmTopic := match alarmSns props with
                    | Some t => Some t
                    | None => created
                    end in
  match js_string (alarmEmail props), alarmTopic with
  | Some e, Some t => addSubscription t (sns_subscriptions.EmailSubscription e)
  | _, _ => mret ()
  end;;
  match alarmSqs props, alarmTopic with
  | Some q, Some t => addSubscription t (sns_subscriptions.SqsSubscription q)
  | _, _ => mret ()
  end;;
  (if is_false (dashboard props) && truthy (js_string (dashboardName props))
   then throw dashboard_name_error
   else mret ());;
  dash ← (if negb (is_false (dashboard props))
          then '(d, o) ← new_Dashboard this "Dashboard" (dashboardName props);
               new_CfnOutput this "WatchfulDashboard" (linkForDashboard o);;
               mret (Some d)
          else mret None);
  mret (mkWatchful this dash alarmTopic arns).

(** Lines 74-95 on their own: the alarm destination the instance will hold. *)
Definition alarm_wiring (this : Construct) (props : WatchfulProps) : M (option nat) :=
  created ← (if (truthy (js_string (alarmEmail props)) || truthy (alarmSqs props))
                && negb (truthy (alarmSns props))
             then Some <$> new_Topic this "AlarmTopic" (Some "Watchful Alarms")
             else mret None);
  let alarmTopic := match alarmSns props with
                    | Some t => Some t
                    | None => created
                    end in
  match js_string (alarmEmail props), alarmTopic with
  | Some e, Some t => addSubscription t (sns_subscriptions.EmailSubscription e)
  | _, _ => mret ()
  end;;
  match alarmSqs props, alarmTopic with
  | Some q, Some t => addSubscription t (sns_subscriptions.SqsSubscription q)
  | _, _ => mret ()
  end;;
  mret alarmTopic.

(** Lines 97-106 on their own: the dashboard the instance will hold. *)
Definition dashboard_setup (this : Construct) (props : WatchfulProps) : M (option nat) :=
  (if is_false (dashboard props) && truthy (js_string (dashboardName props))
   then throw dashboard_name_error
   else mret ());;
  (if negb (is_false (dashboard props))
   then '(d, o) ← new_Dashboard this "Dashboard" (dashboardName props);
        new_CfnOutput this "WatchfulDashboard" (linkForDashboard o);;
        mret (Some d)
   else mret None).

Definition addWidgets (this : Watchful) (ws : list cloudwatch.IWidget) : M () :=
  match this_dash this with
  | Some d => Dashboard_addWidgets d ws
  | None => mret ()
  end.

Definition addAlarm (this : Watchful) (alarm : cloudwatch.Alarm) : cloudwatch.Alarm :=
  let alarm1 := match this_alarmTopic this with
                | Some t => cloudwatch.addAlarmAction [cloudwatch.SnsAction t] alarm
                | None => alarm
                end in
  cloudwatch.addAlarmAction (cloudwatch.ArnAction <$> this_alarmActionArns this) alarm1.

Definition addSection (this : Watchful) (title : string) (options : SectionOptions) : M () :=
  addWidgets this
    [cloudwatch.SectionWidget
       {| titleLevel := 1; titleMarkdown := title; quicklinks := links options |}].

End Framework.

Arguments Watchful_new cfnRef scope id props σ : rename.
Arguments dashboard_setup cfnRef this props σ : rename.

(** ** Vocabulary of the statements *)

(** The configuration the constructor rejects: dashboards switched off and a
    non-empty dashboard name. *)
Definition name_without_dashboard (props : WatchfulProps) : Prop :=
  dashboard props = Some false ∧ ∃ n, dashboardName props = Some n ∧ n ≠ "".

(** The test of line 97 of the source, as the code evaluates it. *)
Definition rejected (props : WatchfulProps) : bool :=
  is_false (dashboard props) && truthy (js_string (dashboardName props)).

(** The subscriptions the constructor makes, in the order it makes them. *)
Definition requested_subscriptions (props : WatchfulProps)
  : list sns_subscriptions.ITopicSubscription :=
  match js_string (alarmEmail props) with
  | Some e => [sns_subscriptions.EmailSubscription e]
  | None => []
  end ++
  match alarmSqs props with
  | Some q => [sns_subscriptions.SqsSubscription q]
  | None => []
  end.

(** The topic object of line 75, made under the node [this] of the instance,
    once it carries the subscriptions [subs]. *)
Definition alarm_topic (this : Construct)
    (subs : list sns_subscriptions.ITopicSubscription) : sns.Topic :=
  sns.mkTopic (nodePath (child this "AlarmTopic")) (Some "Watchful Alarms") subs.

(** A topic after the subscriptions [subs] were added to it. *)
Definition subscribed (subs : list sns_subscriptions.ITopicSubscription)
    (T : sns.Topic) : sns.Topic :=
  sns.mkTopic (sns.node T) (sns.displayName T) (sns.subscriptions T ++ subs).

(** The dashboard object of line 101, made under the node [this] of the
    instance, as the framework creates it. *)
Definition dashboard_of (cfnRef : list string → string) (this : Construct)
    (props : WatchfulProps) : cloudwatch.Dashboard :=
  let c := child this "Dashboard" in
  cloudwatch.mkDashboard (nodePath c) (dashboardName props) (stackRegion this)
    (cfnRef (nodePath c)) [].

Definition created_dashboard (cfnRef : list string → string) (scope : Construct)
    (id : string) (props : WatchfulProps) : cloudwatch.Dashboard :=
  dashboard_of cfnRef (child scope id) props.

(** The output of line 103 for the dashboard [D]. *)
Definition output_of (this : Construct) (D : cloudwatch.Dashboard) : CfnOutput :=
  mkCfnOutput (nodePath (child this "WatchfulDashboard")) (linkForDashboard D).

(** The SNS action [addAlarm] attaches for the topic an instance holds. *)
Definition topic_actions (w : Watchful) : list cloudwatch.IAlarmAction :=
  match this_alarmTopic w with
  | Some t => [cloudwatch.SnsAction t]
  | None => []
  end.

(** The references an instance holds resolve in the store. *)
Definition live (w : Watchful) (σ : World) : Prop :=
  (∀ d, this_dash w = Some d → is_Some (dashboards σ !! d)) ∧
  (∀ t, this_alarmTopic w = Some t → is_Some (topics σ !! t)).

(** The widget [addSection] builds for a title and its options. *)
Definition section_widget (title : string) (options : SectionOptions)
  : cloudwatch.IWidget :=
  cloudwatch.SectionWidget (mkSectionWidgetProps 1 title (links options)).

(** The store after the calls [addWidgets(...ws)] for each [ws] of [wss],
    made in that order on the instance [w]. *)
Definition addWidgets_each (w : Watchful) (wss : list (list cloudwatch.IWidget))
    (σ : World) : World :=
  foldl (λ σ ws, (addWidgets w ws σ).2) σ wss.

(** ** Sample inputs *)

Module Sample.
Definition stack : Construct := mkConstruct ["MyStack"] "eu-west-1".
Definition cfnRef (p : list string) : string := String.concat "" p.
Definition queue : sqs.IQueue := sqs.mkQueue "arn:aws:sqs:eu-west-1:1:alarms".
Definition topic : sns.Topic := sns.mkTopic ["MyStack"; "Ops"] None [].
(** A store holding one topic the caller owns, at location 0. *)
Definition world : World :=
  mkWorld {[0 := topic]} ∅ [] {[ ["MyStack"]; ["MyStack"; "Ops"] ]}.
Definition empty_world : World := mkWorld ∅ ∅ [] {[ ["MyStack"] ]}.
Definition alarm : cloudwatch.Alarm :=
  cloudwatch.mkAlarm "Errors" [cloudwatch.ArnAction "arn:aws:sns:eu-west-1:1:pager"].
End Sample.

(** ** Proof steps *)

Ltac run_bind :=
  unfold mbind, M_bind, mret, M_ret, fmap, M_fmap, throw.

(** ** Truthiness *)

Lemma js_string_Some o s : js_string o = Some s ↔ o = Some s ∧ s ≠ "".
Proof.
  destruct o as [s'|]; simpl.
  - destruct (decide (s' = "")) as [->|Hne].
    + split; [discriminate | intros [[= <-] Hs]; contradiction].
    + split; [intros [= <-]; done | intros [[= <-] _]; done].
  - split; [discriminate | intros [? _]; discriminate].
Qed.

Lemma js_string_nonempty s : s ≠ "" → js_string (Some s) = Some s.
Proof. intros. by apply js_string_Some. Qed.

Lemma rejected_true props : rejected props = true ↔ name_without_dashboard props.
Proof.
  unfold rejected, name_without_dashboard.
  destruct (dashboard props) as [[|]|]; simpl;
    try (split; [discriminate | intros [[=] _]]).
  destruct (js_string (dashboardName props)) as [n|] eqn:Hn; simpl.
  - apply js_string_Some in Hn. split; [eauto | done].
  - split; [discriminate |].
    intros [_ (n & Hn' & Hne)].
    assert (js_string (dashboardName props) = Some n) as Hs
      by (by apply js_string_Some).
    congruence.
Qed.


Lemma requested_email_only props e :
  alarmEmail props = Some e → e ≠ "" → alarmSqs props = None →
  requested_subscriptions props = [sns_subscriptions.EmailSubscription e].
Proof.
  intros He Hne Hq. unfold requested_subscriptions.
  by rewrite He, Hq, js_string_nonempty.
Qed.

Lemma requested_queue_only props q :
  alarmSqs props = Some q → alarmEmail props = None →
  requested_subscriptions props = [sns_subscriptions.SqsSubscription q].
Proof. intros Hq He. unfold requested_subscriptions. by rewrite He, Hq. Qed.

Lemma requested_both props e q :
  alarmEmail props = Some e → e ≠ "" → alarmSqs props = Some q →
  requested_subscriptions props =
    [sns_subscriptions.EmailSubscription e; sns_subscriptions.SqsSubscription q].
Proof.
  intros He Hne Hq. unfold requested_subscriptions.
  by rewrite He, Hq, js_string_nonempty.
Qed.

Lemma requested_none props :
  alarmEmail props = None → alarmSqs props = None →
  requested_subscriptions props = [].
Proof. intros He Hq. unfold requested_subscriptions. by rewrite He, Hq. Qed.

(** ** The framework calls *)

Lemma subscribed_nil (T : sns.Topic) : subscribed [] T = T.
Proof. destruct T. unfold subscribed. cbn. by rewrite app_nil_r. Qed.

Lemma subscribed_app subs1 subs2 (T : sns.Topic) :
  subscribed subs2 (subscribed subs1 T) = subscribed (subs1 ++ subs2) T.
Proof. unfold subscribed. cbn. by rewrite app_assoc. Qed.

Lemma alter_subscribed_nil t (m : gmap nat sns.Topic) :
  alter (subscribed []) t m = m.
Proof. apply alter_id. intros T _. apply subscribed_nil. Qed.

(** The three outcomes of registering a construct. *)
Lemma new_Construct_cases scope id σ :
  (id = "" ∧
   new_Construct scope id σ = (Throw (EmptyConstructId (nodePath scope)), σ)) ∨
  (id ≠ "" ∧ nodePath (child scope id) ∈ tree σ ∧
   new_Construct scope id σ =
     (Throw (DuplicateConstruct (nodePath (child scope id))), σ)) ∨
  (id ≠ "" ∧ (nodePath (child scope id) ∉ tree σ) ∧
   new_Construct scope id σ =
     (Normal (child scope id), register (nodePath (child scope id)) σ)).
Proof.
  unfold new_Construct. cbn zeta.
  destruct (decide (id = "")) as [->|Hid].
  { left. by rewrite bool_decide_eq_true_2. }
  right. rewrite (bool_decide_eq_false_2 _ Hid).
  destruct (decide (nodePath (child scope id) ∈ tree σ)) as [Hin|Hin].
  - left. by rewrite bool_decide_eq_true_2.
  - right. by rewrite bool_decide_eq_false_2.
Qed.

(** The outcomes of a subscription through a reference. *)
Lemma addSubscription_cases t s σ :
  (∃ T, topics σ !! t = Some T ∧
        addSubscription t s σ = (Throw (DuplicateSubscription (sns.node T) s), σ)) ∨
  (∃ tr, tree σ ⊆ tr ∧
         addSubscription t s σ =
           (Normal (),
            {| topics := alter (subscribed [s]) t (topics σ);
               dashboards := dashboards σ; outputs := outputs σ; tree := tr |})).
Proof.
  unfold addSubscription. destruct (topics σ !! t) as [T|] eqn:HT.
  - destruct (sns.subscribed_already s T || subscription_taken s T σ);
      [left; eauto | right].
    exists (subscription_registered s T σ). split; [|done].
    unfold subscription_registered.
    destruct (sns.subscription_path s T); set_solver.
  - right. exists (tree σ). split; [done|].
    destruct σ as [ts ds os tr]. cbn in *. f_equal. f_equal.
    symmetry. apply map_eq. intros k. rewrite lookup_alter.
    case_decide; [subst; rewrite HT; done | done].
Qed.

Lemma bind_run {A B} (m : M A) (f : A → M B) σ :
  (m ≫= f) σ = match m σ with
                | (Normal a, σ') => f a σ'
                | (Throw e, σ') => (Throw e, σ')
                end.
Proof. reflexivity. Qed.

(** The outcomes of making a topic: a failure leaves the topics alone. *)
Lemma new_Topic_cases scope id name σ :
  id ≠ "" →
  (∃ e σ1, e ≠ dashboard_name_error ∧
           new_Topic scope id name σ = (Throw e, σ1) ∧
           topics σ1 = topics σ ∧ dashboards σ1 = dashboards σ ∧
           outputs σ1 = outputs σ ∧ tree σ ⊆ tree σ1) ∨
  (∃ tr, tree σ ⊆ tr ∧
         new_Topic scope id name σ =
           (Normal (fresh (dom (topics σ))),
            {| topics := <[fresh (dom (topics σ)) :=
                             sns.mkTopic (nodePath (child scope id)) name []]>
                           (topics σ);
               dashboards := dashboards σ; outputs := outputs σ; tree := tr |})).
Proof.
  intros Hid. unfold new_Topic. rewrite bind_run.
  destruct (new_Construct_cases scope id σ)
    as [[? _]|[(_ & Hin & ->)|(_ & Hin & ->)]]; [done | |].
  { left. eexists _, σ. split; [|done]. discriminate. }
  rewrite bind_run.
  destruct (new_Construct_cases (child scope id) "Resource"
              (register (nodePath (child scope id)) σ))
    as [[[=] _]|[(_ & Hin' & ->)|(_ & Hin' & ->)]].
  - left. exists (DuplicateConstruct (nodePath (child (child scope id) "Resource"))).
    eexists. split; [discriminate|]. split; [reflexivity|].
    cbn. repeat split. clear. set_solver.
  - right. eexists. split; [|reflexivity]. cbn. clear. set_solver.
Qed.

Arguments child : simpl never.
Arguments new_Construct : simpl never.
Arguments new_Topic : simpl never.
Arguments addSubscription : simpl never.
Arguments new_Dashboard : simpl never.
Arguments new_CfnOutput : simpl never.

(** Lines 82-95 once the topic is known, for every outcome. *)
Lemma subscriptions_spec (e : option string) (q : option sqs.IQueue) t σ r σ' :
  (match e with
   | Some e => addSubscription t (sns_subscriptions.EmailSubscription e)
   | None => mret ()
   end;;
   match q with
   | Some q => addSubscription t (sns_subscriptions.SqsSubscription q)
   | None => mret ()
   end;;
   mret (Some t)) σ = (r, σ') →
  dashboards σ' = dashboards σ ∧ outputs σ' = outputs σ ∧ tree σ ⊆ tree σ' ∧
  ∃ subs, topics σ' = alter (subscribed subs) t (topics σ) ∧
          ((r = Normal (Some t) ∧
            subs = (match e with
                    | Some e => [sns_subscriptions.EmailSubscription e]
                    | None => []
                    end ++
                    match q with
                    | Some q => [sns_subscriptions.SqsSubscription q]
                    | None => []
                    end)%list) ∨
           (∃ err, r = Throw err ∧ err ≠ dashboard_name_error)).
Proof.
  rewrite bind_run.
  assert (∀ (σ1 : World) s,
            (∃ T, topics σ1 !! t = Some T ∧
                  addSubscription t s σ1 =
                    (Throw (DuplicateSubscription (sns.node T) s), σ1)) →
            ∃ err, addSubscription t s σ1 = (Throw err, σ1) ∧
                   err ≠ dashboard_name_error) as Hthrow.
  { intros σ1 s (T & _ & ->). eexists. split; [reflexivity | discriminate]. }
  destruct e as [e|].
  - destruct (addSubscription_cases t (sns_subscriptions.EmailSubscription e) σ)
      as [HT|(tr & Htr & ->)].
    { apply Hthrow in HT as (err & -> & Herr). intros [= <- <-].
      repeat split; try done.
      exists []. rewrite alter_subscribed_nil. split; [done|]. right. eauto. }
    rewrite bind_run. destruct q as [q|].
    + match goal with |- context [addSubscription t ?s ?σ1] =>
        destruct (addSubscription_cases t s σ1) as [HT|(tr' & Htr' & ->)] end.
      { apply Hthrow in HT as (err & -> & Herr). intros [= <- <-]. cbn.
        repeat split; try done.
        eexists. split; [reflexivity|]. right. eauto. }
      cbn. intros [= <- <-]. cbn. repeat split; try done; [set_solver|].
      eexists. split; [|left; split; reflexivity].
      rewrite alter_alter_eq. apply alter_ext. intros T _. cbn.
      apply subscribed_app.
    + cbn. intros [= <- <-]. cbn. repeat split; try done.
      eexists. split; [reflexivity|]. by left.
  - cbn [mret M_ret]. rewrite bind_run. destruct q as [q|].
    + destruct (addSubscription_cases t (sns_subscriptions.SqsSubscription q) σ)
        as [HT|(tr & Htr & ->)].
      { apply Hthrow in HT as (err & -> & Herr). intros [= <- <-].
        repeat split; try done.
        exists []. rewrite alter_subscribed_nil. split; [done|]. right. eauto. }
      cbn. intros [= <- <-]. cbn. repeat split; try done.
      eexists. split; [reflexivity|]. by left.
    + cbn. intros [= <- <-]. repeat split; try done.
      exists []. rewrite alter_subscribed_nil. split; [done|]. by left.
Qed.

(** Lines 74-95 in closed form, for every outcome. *)
Lemma alarm_wiring_spec this props σ r σ' :
  alarm_wiring this props σ = (r, σ') →
  dashboards σ' = dashboards σ ∧ outputs σ' = outputs σ ∧
  match alarmSns props with
  | Some t =>
      tree σ ⊆ tree σ' ∧
      ∃ subs, topics σ' = alter (subscribed subs) t (topics σ) ∧
              ((r = Normal (Some t) ∧ subs = requested_subscriptions props) ∨
               (∃ e, r = Throw e ∧ e ≠ dashboard_name_error))
  | None =>
      match requested_subscriptions props with
      | [] => r = Normal None ∧ σ' = σ
      | _ :: _ =>
          ((∃ e, r = Throw e ∧ e ≠ dashboard_name_error) ∧
           tree σ ⊆ tree σ' ∧
           (topics σ' = topics σ ∨
            ∃ subs, topics σ' =
                      <[fresh (dom (topics σ)) := alarm_topic this subs]>
                        (topics σ))) ∨
          (r = Normal (Some (fresh (dom (topics σ)))) ∧
           topics σ' =
             <[fresh (dom (topics σ)) :=
                 alarm_topic this (requested_subscriptions props)]> (topics σ) ∧
           tree σ ⊆ tree σ')
      end
  end.
Proof.
  unfold alarm_wiring, requested_subscriptions.
  destruct props as [e q t n arns d]. cbn [alarmEmail alarmSqs alarmSns].
  destruct t as [t|].
  - (* a topic is given: nothing is created *)
    replace ((truthy (js_string e) || truthy q) && negb (truthy (Some t)))
      with false by (by rewrite andb_false_r).
    rewrite bind_run. cbn [mret M_ret].
    destruct (js_string e) as [e'|], q as [q'|]; intros Hrun.
    + apply (subscriptions_spec (Some e') (Some q')) in Hrun. naive_solver.
    + apply (subscriptions_spec (Some e') None) in Hrun. naive_solver.
    + apply (subscriptions_spec None (Some q')) in Hrun. naive_solver.
    + apply (subscriptions_spec None None) in Hrun. naive_solver.
  - (* no topic is given *)
    cbn [truthy negb]. rewrite andb_true_r. rewrite bind_run.
    destruct (js_string e) as [e'|] eqn:He, q as [q'|] eqn:Hq;
      cbn [truthy orb app].
    4: { cbn. intros [= <- <-]. done. }
    all: unfold fmap, M_fmap.
    all: destruct (new_Topic_cases this "AlarmTopic" (Some "Watchful Alarms") σ)
           as [(err & σ1 & Herr & -> & Ht & Hd & Ho & Htr)|(tr & Htr & ->)];
           [discriminate | | ].
    all: try (intros [= <- <-]; split; [done|]; split; [done|]; left;
              split; [eauto|]; split; [done|]; by left).
    all: intros Hrun.
    1: apply (subscriptions_spec (Some e') (Some q')) in Hrun.
    2: apply (subscriptions_spec (Some e') None) in Hrun.
    3: apply (subscriptions_spec None (Some q')) in Hrun.
    all: cbn [topics dashboards outputs tree] in Hrun.
    all: destruct Hrun as (Hd & Ho & Htr' & subs & Htop & Hr).
    all: rewrite alter_insert_eq in Htop.
    all: change (subscribed subs (sns.mkTopic _ _ []))
           with (alarm_topic this subs) in Htop.
    all: split; [done|]; split; [done|].
    all: assert (tree σ ⊆ tree σ') as Hsub by (clear -Htr Htr'; set_solver).
    all: destruct Hr as [[-> ->]|Hfail];
           [right; split; [done|]; split; done
           |left; split; [done|]; split; [done|]; right; eauto].
Qed.

Lemma new_Dashboard_cases cfnRef scope id name σ :
  id ≠ "" →
  let c := child scope id in
  let D := cloudwatch.mkDashboard (nodePath c) name (stackRegion c)
             (cfnRef (nodePath c)) [] in
  let l := fresh (dom (dashboards σ)) in
  (∃ e σ1, e ≠ dashboard_name_error ∧
           new_Dashboard cfnRef scope id name σ = (Throw e, σ1) ∧
           topics σ1 = topics σ ∧ dashboards σ1 = dashboards σ ∧
           outputs σ1 = outputs σ ∧ tree σ ⊆ tree σ1) ∨
  (∃ tr, tree σ ⊆ tr ∧
         new_Dashboard cfnRef scope id name σ =
           (Normal (l, D),
            {| topics := topics σ; dashboards := <[l := D]> (dashboards σ);
               outputs := outputs σ; tree := tr |})).
Proof.
  intros Hid c D l. unfold new_Dashboard. rewrite bind_run.
  destruct (new_Construct_cases scope id σ)
    as [[? _]|[(_ & Hin & ->)|(_ & Hin & ->)]]; [done | |].
  { left. eexists _, σ. split; [|done]. discriminate. }
  fold c. rewrite bind_run.
  assert (tree σ ⊆ tree (register (nodePath c) σ)) as Hsub
    by (cbn; clear; set_solver).
  assert ((mret () : M ()) (register (nodePath c) σ)
          = (Normal (), register (nodePath c) σ)) as Hret by reflexivity.
  destruct (js_string name) as [n|]; [destruct (cloudwatch.valid_name n)|].
  2: { left. exists (InvalidDashboardName n). eexists.
       split; [discriminate|]. split; [reflexivity|]. done. }
  all: rewrite Hret, bind_run.
  all: destruct (new_Construct_cases c "Resource" (register (nodePath c) σ))
         as [[[=] _]|[(_ & Hin' & ->)|(_ & Hin' & ->)]].
  all: try (left; exists (DuplicateConstruct (nodePath (child c "Resource")));
            eexists; split; [discriminate|]; split; [reflexivity|]; done).
  all: right; eexists; split; [|reflexivity]; cbn; clear; set_solver.
Qed.

Lemma new_CfnOutput_cases scope id v σ :
  id ≠ "" →
  let c := child scope id in
  (new_CfnOutput scope id v σ = (Throw (DuplicateConstruct (nodePath c)), σ)) ∨
  (new_CfnOutput scope id v σ =
     (Normal (),
      {| topics := topics σ; dashboards := dashboards σ;
         outputs := outputs σ ++ [mkCfnOutput (nodePath c) v];
         tree := {[nodePath c]} ∪ tree σ |})).
Proof.
  intros Hid c. unfold new_CfnOutput. rewrite bind_run.
  destruct (new_Construct_cases scope id σ)
    as [[? _]|[(_ & Hin & ->)|(_ & Hin & ->)]]; [done | by left | by right].
Qed.

(** Lines 97-106 in closed form, for every outcome. *)
Lemma dashboard_setup_spec cfnRef this props σ r σ' :
  dashboard_setup cfnRef this props σ = (r, σ') →
  (topics σ' = topics σ ∧ tree σ ⊆ tree σ') ∧
  if rejected props then r = Throw dashboard_name_error ∧ σ' = σ
  else if is_false (dashboard props) then r = Normal None ∧ σ' = σ
  else
    let D := dashboard_of cfnRef this props in
    let l := fresh (dom (dashboards σ)) in
    ((∃ e, r = Throw e ∧ e ≠ dashboard_name_error) ∧
     dashboards σ' = dashboards σ ∧ outputs σ' = outputs σ) ∨
    ((∃ e, r = Throw e ∧ e ≠ dashboard_name_error) ∧
     dashboards σ' = <[l := D]> (dashboards σ) ∧ outputs σ' = outputs σ) ∨
    (r = Normal (Some l) ∧
     dashboards σ' = <[l := D]> (dashboards σ) ∧
     outputs σ' = (outputs σ ++ [output_of this D])%list).
Proof.
  unfold dashboard_setup, rejected. rewrite bind_run.
  destruct (is_false (dashboard props)) eqn:Hf; cbn [andb negb].
  - destruct (truthy (js_string (dashboardName props))); cbn;
      intros [= <- <-]; done.
  - cbn [mret M_ret]. rewrite bind_run.
    destruct (new_Dashboard_cases cfnRef this "Dashboard" (dashboardName props) σ)
      as [(e & σ1 & He & -> & Ht & Hd & Ho & Htr)|(tr & Htr & ->)];
      [discriminate | | ].
    + intros [= <- <-]. split; [done|]. left. split; [eauto | done].
    + rewrite bind_run.
      match goal with |- context [new_CfnOutput this ?i ?v ?σ1] =>
        destruct (new_CfnOutput_cases this i v σ1) as [-> | ->];
          [discriminate | | ] end.
      * intros [= <- <-]. split; [done|]. right. left. split; [|done].
        eexists. split; [reflexivity | discriminate].
      * cbn. intros [= <- <-]. split; [cbn; clear -Htr; set_solver|].
        right. right. done.
Qed.

(** The constructor is [super(scope, id)] followed by its two halves. *)
Lemma Watchful_new_phases cfnRef scope id props σ :
  Watchful_new cfnRef scope id props σ =
  match new_Construct scope id σ with
  | (Normal this, σ0) =>
      match alarm_wiring this props σ0 with
      | (Normal topic, σ1) =>
          match dashboard_setup cfnRef this props σ1 with
          | (Normal dash, σ2) =>
              (Normal (mkWatchful this dash topic
                         (default [] (alarmActionArns props))), σ2)
          | (Throw e, σ2) => (Throw e, σ2)
          end
      | (Throw e, σ1) => (Throw e, σ1)
      end
  | (Throw e, σ0) => (Throw e, σ0)
  end.
Proof.
  unfold Watchful_new, alarm_wiring, dashboard_setup. rewrite bind_run.
  destruct (new_Construct scope id σ) as [[this|e] σ0]; [|done].
  cbn zeta. rewrite !bind_run.
  destruct ((if (truthy (js_string (alarmEmail props)) || truthy (alarmSqs props))
                && negb (truthy (alarmSns props))
             then Some <$> new_Topic this "AlarmTopic" (Some "Watchful Alarms")
             else mret None) σ0) as [[created|e] σ1]; [|done].
  rewrite !bind_run.
  match goal with |- context [match ?m σ1 with _ => _ end] =>
    destruct (m σ1) as [[[]|e] σ2]; [|done] end.
  rewrite !bind_run.
  match goal with |- context [match ?m σ2 with _ => _ end] =>
    destruct (m σ2) as [[[]|e] σ3]; [|done] end.
  cbn [mret M_ret]. rewrite !bind_run.
  match goal with |- context [match ?m σ3 with _ => _ end] =>
    destruct (m σ3) as [[[]|e] σ4]; [|done] end.
  rewrite bind_run.
  match goal with |- context [match ?m σ4 with _ => _ end] =>
    destruct (m σ4) as [[dash|e] σ5]; done end.
Qed.

(** ** The constructor in closed form *)

(** A successful call. *)
Lemma Watchful_new_Normal cfnRef scope id props σ w σ' :
  Watchful_new cfnRef scope id props σ = (Normal w, σ') →
  let this := child scope id in
  (id ≠ "" ∧ (nodePath this ∉ tree σ) ∧ nodePath this ∈ tree σ' ∧
   rejected props = false) ∧
  (this_node w = this ∧
   this_alarmActionArns w = default [] (alarmActionArns props)) ∧
  match alarmSns props with
  | Some t =>
      this_alarmTopic w = Some t ∧
      topics σ' = alter (subscribed (requested_subscriptions props)) t (topics σ)
  | None =>
      match requested_subscriptions props with
      | [] => this_alarmTopic w = None ∧ topics σ' = topics σ
      | _ :: _ =>
          this_alarmTopic w = Some (fresh (dom (topics σ))) ∧
          topics σ' =
            <[fresh (dom (topics σ)) :=
                alarm_topic this (requested_subscriptions props)]> (topics σ)
      end
  end ∧
  if is_false (dashboard props)
  then this_dash w = None ∧ dashboards σ' = dashboards σ ∧ outputs σ' = outputs σ
  else this_dash w = Some (fresh (dom (dashboards σ))) ∧
       dashboards σ' =
         <[fresh (dom (dashboards σ)) := dashboard_of cfnRef this props]>
           (dashboards σ) ∧
       outputs σ' =
         (outputs σ ++ [output_of this (dashboard_of cfnRef this props)])%list.
Proof.
  rewrite Watchful_new_phases. intros Hrun this.
  destruct (new_Construct_cases scope id σ)
    as [[_ Hc]|[(_ & _ & Hc)|(Hid & Hin & Hc)]];
    rewrite Hc in Hrun; [discriminate | discriminate |].
  fold this in Hrun, Hin.
  destruct (alarm_wiring this props (register (nodePath this) σ))
    as [[topic|e] σ1] eqn:Hw; [|discriminate].
  destruct (dashboard_setup cfnRef this props σ1) as [[dash|e] σ2] eqn:Hd;
    [|discriminate].
  injection Hrun as <- <-. cbn [this_node this_dash this_alarmTopic
                                  this_alarmActionArns].
  apply alarm_wiring_spec in Hw as (Hwd & Hwo & Hwt).
  apply dashboard_setup_spec in Hd as ((Hdt & Hdtree) & Hdd).
  cbn [register topics dashboards outputs tree] in *.
  assert (nodePath this ∈ tree σ1) as Htree.
  { destruct (alarmSns props).
    - destruct Hwt as [Hsub _]. clear -Hsub. set_solver.
    - destruct (requested_subscriptions props).
      + destruct Hwt as [_ ->]. cbn. clear. set_solver.
      + destruct Hwt as [[(e & [=] & _) _]|(_ & _ & Hsub)].
        clear -Hsub. set_solver. }
  destruct (rejected props) eqn:Hrej; [by destruct Hdd|].
  repeat split; try done.
  - set_solver.
  - destruct (alarmSns props) as [t|].
    + destruct Hwt as (_ & subs & Htop & [[[= ->] ->]|(e & [=] & _)]).
      split; [done | congruence].
    + destruct (requested_subscriptions props) as [|s subs].
      * destruct Hwt as [[= ->] ->]. split; [done | by rewrite Hdt].
      * destruct Hwt as [[(e & [=] & _) _]|([= ->] & Htop & _)].
        split; [done | congruence].
  - destruct (is_false (dashboard props)).
    + destruct Hdd as [[= <-] ->]. done.
    + cbn zeta in Hdd. rewrite Hwd, Hwo in Hdd.
      destruct Hdd as [[(e & [=] & _) _]|[[(e & [=] & _) _]|([= <-] & Hd1 & Hd2)]].
      done.
Qed.

(** Any call, whatever its outcome. *)
Lemma Watchful_new_any cfnRef scope id props σ r σ' :
  Watchful_new cfnRef scope id props σ = (r, σ') →
  let this := child scope id in
  tree σ ⊆ tree σ' ∧
  match alarmSns props with
  | Some t => ∃ subs, topics σ' = alter (subscribed subs) t (topics σ)
  | None =>
      topics σ' = topics σ ∨
      ∃ subs, topics σ' =
                <[fresh (dom (topics σ)) := alarm_topic this subs]> (topics σ)
  end ∧
  (dashboards σ' = dashboards σ ∨
   dashboards σ' =
     <[fresh (dom (dashboards σ)) := dashboard_of cfnRef this props]>
       (dashboards σ)) ∧
  (outputs σ' = outputs σ ∨
   outputs σ' =
     (outputs σ ++ [output_of this (dashboard_of cfnRef this props)])%list).
Proof.
  rewrite Watchful_new_phases. intros Hrun this.
  assert (match alarmSns props with
          | Some t => ∃ subs, topics σ = alter (subscribed subs) t (topics σ)
          | None =>
              topics σ = topics σ ∨
              ∃ subs, topics σ =
                        <[fresh (dom (topics σ)) := alarm_topic this subs]> (topics σ)
          end) as Hsame.
  { destruct (alarmSns props); [|by left].
    exists []. by rewrite alter_subscribed_nil. }
  destruct (new_Construct_cases scope id σ)
    as [[_ Hc]|[(_ & _ & Hc)|(Hid & Hin & Hc)]];
    rewrite Hc in Hrun;
    [injection Hrun as <- <-; split; [done|]; split; [exact Hsame|];
     split; by left.. |].
  clear Hsame. fold this in Hrun, Hin.
  destruct (alarm_wiring this props (register (nodePath this) σ))
    as [[topic|e] σ1] eqn:Hw.
  2: { injection Hrun as <- <-.
       apply alarm_wiring_spec in Hw as (Hwd & Hwo & Hwt).
       cbn [register topics dashboards outputs tree] in *.
       split; [|split; [|split; by left]].
       - destruct (alarmSns props).
         + destruct Hwt as [Hsub _]. clear -Hsub. set_solver.
         + destruct (requested_subscriptions props).
           * by destruct Hwt as [[=] _].
           * destruct Hwt as [(_ & Hsub & _)|([=] & _)]. clear -Hsub. set_solver.
       - destruct (alarmSns props).
         + destruct Hwt as (_ & subs & -> & _). eauto.
         + destruct (requested_subscriptions props).
           * by destruct Hwt as [[=] _].
           * destruct Hwt as [(_ & _ & [->|[subs ->]])|([=] & _)];
               [by left | right; eauto]. }
  apply alarm_wiring_spec in Hw as (Hwd & Hwo & Hwt).
  cbn [register topics dashboards outputs tree] in *.
  assert (tree σ ⊆ tree σ1 ∧
          match alarmSns props with
          | Some t => ∃ subs, topics σ1 = alter (subscribed subs) t (topics σ)
          | None =>
              topics σ1 = topics σ ∨
              ∃ subs, topics σ1 =
                        <[fresh (dom (topics σ)) := alarm_topic this subs]> (topics σ)
          end) as [Htree1 Htop1].
  { destruct (alarmSns props).
    - destruct Hwt as (Hsub & subs & -> & _).
      split; [clear -Hsub; set_solver | eauto].
    - destruct (requested_subscriptions props).
      + destruct Hwt as [_ ->]. cbn. split; [clear; set_solver | by left].
      + destruct Hwt as [[(e & [=] & _) _]|(_ & -> & Hsub)].
        split; [clear -Hsub; set_solver | eauto]. }
  destruct (dashboard_setup cfnRef this props σ1) as [[dash|e] σ2] eqn:Hd;
    injection Hrun as <- <-;
    apply dashboard_setup_spec in Hd as ((Hdt & Hdtree) & Hdd);
    rewrite Hdt; (split; [set_solver|]; split; [exact Htop1|]);
    rewrite <- Hwd, <- Hwo.
  all: destruct (rejected props);
    [destruct Hdd as [_ ->]; split; by left|].
  all: destruct (is_false (dashboard props));
    [destruct Hdd as [_ ->]; split; by left|].
  all: cbn zeta in Hdd;
    destruct Hdd as [(_ & -> & ->)|[(_ & -> & ->)|(_ & -> & ->)]]; eauto.
Qed.

(** A call that raises the configuration error: lines 70-95 have run to
    their end on the store, and nothing else has. *)
Lemma Watchful_new_config_error cfnRef scope id props σ σ' :
  Watchful_new cfnRef scope id props σ = (Throw dashboard_name_error, σ') →
  let this := child scope id in
  rejected props = true ∧ id ≠ "" ∧ (nodePath this ∉ tree σ) ∧
  ∃ topic, alarm_wiring this props (register (nodePath this) σ) = (Normal topic, σ').
Proof.
  rewrite Watchful_new_phases. intros Hrun this.
  destruct (new_Construct_cases scope id σ)
    as [[_ Hc]|[(_ & _ & Hc)|(Hid & Hin & Hc)]];
    rewrite Hc in Hrun; [discriminate | discriminate |].
  fold this in Hrun, Hin.
  destruct (alarm_wiring this props (register (nodePath this) σ))
    as [[topic|e] σ1] eqn:Hw.
  2: { injection Hrun as -> <-.
       apply alarm_wiring_spec in Hw as (_ & _ & Hwt).
       destruct (alarmSns props).
       - by destruct Hwt as (_ & subs & _ & [[[=] _]|(e & [= <-] & He)]).
       - destruct (requested_subscriptions props).
         + by destruct Hwt as [[=] _].
         + by destruct Hwt as [[(e & [= <-] & He) _]|([=] & _)]. }
  destruct (dashboard_setup cfnRef this props σ1) as [[dash|e] σ2] eqn:Hd;
    [discriminate|].
  injection Hrun as -> <-.
  apply dashboard_setup_spec in Hd as (_ & Hdd).
  destruct (rejected props).
  - destruct Hdd as [_ ->]. eauto.
  - destruct (is_false (dashboard props)); [by destruct Hdd|].
    cbn zeta in Hdd.
    by destruct Hdd as [[(e & [= <-] & He) _]|[[(e & [= <-] & He) _]|([=] & _)]].
Qed.



Lemma fresh_topic_unused (σ : World) : topics σ !! fresh (dom (topics σ)) = None.
Proof. apply not_elem_of_dom, is_fresh. Qed.

Lemma fresh_dashboard_unused (σ : World) :
  dashboards σ !! fresh (dom (dashboards σ)) = None.
Proof. apply not_elem_of_dom, is_fresh. Qed.

Lemma run_pair {A} (x : Completion A * World) : x = (x.1, x.2).
Proof. by destruct x. Qed.

(** ** What a construction call leaves alone *)

Lemma new_keeps_dashboards cfnRef scope id props σ d D :
  dashboards σ !! d = Some D →
  dashboards (Watchful_new cfnRef scope id props σ).2 !! d = Some D.
Proof.
  intros Hd.
  destruct (Watchful_new_any _ _ _ _ _ _ _
              (run_pair (Watchful_new cfnRef scope id props σ)))
    as (_ & _ & [-> | ->] & _); [done|].
  rewrite lookup_insert_ne; [done|].
  intros <-. rewrite fresh_dashboard_unused in Hd. discriminate.
Qed.

Lemma new_keeps_other_topics cfnRef scope id props σ t T :
  alarmSns props ≠ Some t →
  topics σ !! t = Some T →
  topics (Watchful_new cfnRef scope id props σ).2 !! t = Some T.
Proof.
  intros Hother HT.
  destruct (Watchful_new_any _ _ _ _ _ _ _
              (run_pair (Watchful_new cfnRef scope id props σ)))
    as (_ & Htop & _).
  destruct (alarmSns props) as [t'|].
  - destruct Htop as [subs ->]. rewrite lookup_alter_ne; [done | congruence].
  - destruct Htop as [-> | [subs ->]]; [done|].
    rewrite lookup_insert_ne; [done|].
    intros <-. rewrite fresh_topic_unused in HT. discriminate.
Qed.

(** The topic given as [alarmSns] only gains subscriptions. *)
Lemma new_extends_given_topic cfnRef scope id props σ t T :
  alarmSns props = Some t →
  topics σ !! t = Some T →
  ∃ subs, topics (Watchful_new cfnRef scope id props σ).2 !! t
          = Some (subscribed subs T).
Proof.
  intros Hs HT.
  destruct (Watchful_new_any _ _ _ _ _ _ _
              (run_pair (Watchful_new cfnRef scope id props σ)))
    as (_ & Htop & _).
  rewrite Hs in Htop. destruct Htop as [subs ->]. exists subs.
  by rewrite lookup_alter_eq, HT.
Qed.

Lemma new_keeps_topic_alive cfnRef scope id props σ t :
  is_Some (topics σ !! t) →
  is_Some (topics (Watchful_new cfnRef scope id props σ).2 !! t).
Proof.
  intros [T HT]. destruct (decide (alarmSns props = Some t)) as [Hs|Hs].
  - destruct (new_extends_given_topic cfnRef scope id props σ t T Hs HT)
      as [subs ->]. eauto.
  - rewrite (new_keeps_other_topics _ _ _ _ _ _ _ Hs HT). eauto.
Qed.

(** At most one topic is allocated by a call, and only when none is given. *)
Lemma Watchful_new_new_topic cfnRef scope id props σ t :
  topics σ !! t = None →
  is_Some (topics (Watchful_new cfnRef scope id props σ).2 !! t) →
  alarmSns props = None ∧ t = fresh (dom (topics σ)).
Proof.
  intros Hnone Hsome.
  destruct (Watchful_new_any _ _ _ _ _ _ _
              (run_pair (Watchful_new cfnRef scope id props σ)))
    as (_ & Htop & _).
  destruct (alarmSns props) as [t'|].
  - destruct Htop as [subs Htop]. rewrite Htop in Hsome.
    apply lookup_alter_is_Some in Hsome. rewrite Hnone in Hsome.
    by destruct Hsome.
  - split; [done|]. destruct Htop as [Htop | [subs Htop]]; rewrite Htop in Hsome.
    + rewrite Hnone in Hsome. by destruct Hsome.
    + destruct (decide (t = fresh (dom (topics σ)))) as [|Hne]; [done|].
      rewrite lookup_insert_ne, Hnone in Hsome by done. by destruct Hsome.
Qed.

(** The provided topic after a successful call: it has gained exactly the
    requested subscriptions. *)
Lemma provided_topic_after_new cfnRef scope id props σ t T w σ' :
  alarmSns props = Some t →
  topics σ !! t = Some T →
  Watchful_new cfnRef scope id props σ = (Normal w, σ') →
  this_alarmTopic w = Some t ∧
  topics σ' = <[t := subscribed (requested_subscriptions props) T]> (topics σ).
Proof.
  intros Hs HT Hrun.
  apply Watchful_new_Normal in Hrun as (_ & _ & Htop & _).
  rewrite Hs in Htop. destruct Htop as [Hw ->]. split; [done|].
  apply map_eq. intros k. destruct (decide (k = t)) as [->|Hk].
  - by rewrite lookup_alter_eq, lookup_insert_eq, HT.
  - by rewrite lookup_alter_ne, lookup_insert_ne.
Qed.

Lemma subscribed_changes subs (T : sns.Topic) (m : gmap nat sns.Topic) t :
  m !! t = Some T → subs ≠ [] → <[t := subscribed subs T]> m ≠ m.
Proof.
  intros HT Hsubs Heq.
  assert (Some (subscribed subs T) = Some T) as Hsame
    by (by rewrite <- HT, <- Heq, lookup_insert_eq).
  injection Hsame as Hsame. apply (f_equal sns.subscriptions) in Hsame.
  cbn in Hsame. apply Hsubs.
  apply (app_inv_head (sns.subscriptions T)). by rewrite app_nil_r.
Qed.

(** ** The framework's own failures, on samples *)

(** A subscriber that is already on the given topic stops the constructor at
    line 83, before the dashboard is made. *)
Example duplicate_subscriber_sample :
  let T := sns.mkTopic ["MyStack"; "Ops"] None
             [sns_subscriptions.EmailSubscription "ops@example.com"] in
  let σ := mkWorld {[0 := T]} ∅ []
             {[ ["MyStack"]; ["MyStack"; "Ops"];
                ["MyStack"; "Ops"; "ops@example.com"] ]} in
  let r := Watchful_new Sample.cfnRef Sample.stack "watchful"
             (mkProps (Some "ops@example.com") None (Some 0) None None None) σ in
  r.1 = Throw (DuplicateSubscription ["MyStack"; "Ops"]
                 (sns_subscriptions.EmailSubscription "ops@example.com")) ∧
  topics r.2 = topics σ ∧ dashboards r.2 = ∅.
Proof. repeat split; vm_compute; reflexivity. Qed.

(** An email address that is the name of the topic's own resource stops it
    at line 83 as well: the topic of line 75 exists by then, and the check of
    line 97 is not reached. *)
Example reserved_subscriber_sample :
  let r := Watchful_new Sample.cfnRef Sample.stack "watchful"
             (mkProps (Some "Resource") None None (Some "ops") None (Some false))
             Sample.world in
  r.1 = Throw (DuplicateSubscription ["MyStack"; "watchful"; "AlarmTopic"]
                 (sns_subscriptions.EmailSubscription "Resource")) ∧
  topics r.2 !! 1 = Some (alarm_topic (child Sample.stack "watchful") []) ∧
  dashboards r.2 = ∅.
Proof. repeat split; vm_compute; reflexivity. Qed.

(** An id that is taken under the scope, or empty, stops it at line 70. *)
Example taken_id_sample :
  let σ1 := (Watchful_new Sample.cfnRef Sample.stack "watchful" no_props
               Sample.world).2 in
  Watchful_new Sample.cfnRef Sample.stack "watchful" no_props σ1 =
    (Throw (DuplicateConstruct ["MyStack"; "watchful"]), σ1) ∧
  Watchful_new Sample.cfnRef Sample.stack "" no_props Sample.world =
    (Throw (EmptyConstructId ["MyStack"]), Sample.world).
Proof. split; vm_compute; reflexivity. Qed.

(** A path separator in the id is replaced in the node paths. *)
Example sanitised_id_sample :
  let r := Watchful_new Sample.cfnRef Sample.stack "a/b"
             (mkProps (Some "ops@example.com") None None None None None)
             Sample.world in
  r.1 = Normal (mkWatchful (mkConstruct ["MyStack"; "a--b"] "eu-west-1")
                  (Some 0) (Some 1) []) ∧
  sns.node <$> topics r.2 !! 1 = Some ["MyStack"; "a--b"; "AlarmTopic"].
Proof. split; vm_compute; reflexivity. Qed.

(** ** Properties of the specification *)



(** C2, as stated, fails: with [alarmSns] given and [alarmEmail] the empty
    string, the email option is given but line 82 tests its truthiness, so no
    email subscription reaches the provided topic, which stays as it was. *)
Lemma alarmSns_empty_email_not_subscribed :
  let props := mkProps (Some "") None (Some 0) None None None in
  let σ' := (Watchful_new Sample.cfnRef Sample.stack "watchful" props Sample.world).2 in
  alarmSns props = Some 0 ∧ alarmEmail props = Some "" ∧
  topics Sample.world !! 0 = Some Sample.topic ∧
  ¬ ∃ T', topics σ' !! 0 = Some T' ∧
          sns_subscriptions.EmailSubscription "" ∈ sns.subscriptions T'.
Proof.
  repeat split; try reflexivity.
  intros (T' & HT' & Hin). vm_compute in HT'. injection HT' as <-.
  cbn in Hin. by apply elem_of_nil in Hin.
Qed.

(** C2 (amended): when [alarmSns] is given, the constructor creates no topic,
    whatever its outcome; when the construction succeeds, the instance holds
    the provided topic, and a non-empty [alarmEmail] and/or an [alarmSqs]
    given with it have been subscribed to that provided topic, which changes
    in no other way. *)
Theorem Watchful_new_alarmSns cfnRef scope id props σ t T :
  alarmSns props = Some t →
  topics σ !! t = Some T →
  dom (topics (Watchful_new cfnRef scope id props σ).2) = dom (topics σ) ∧
  ∀ w σ', Watchful_new cfnRef scope id props σ = (Normal w, σ') →
    this_alarmTopic w = Some t ∧
    topics σ' = <[t := subscribed (requested_subscriptions props) T]> (topics σ) ∧
    (∀ e, alarmEmail props = Some e → e ≠ "" →
          sns_subscriptions.EmailSubscription e
            ∈ sns.subscriptions (subscribed (requested_subscriptions props) T)) ∧
    (∀ q, alarmSqs props = Some q →
          sns_subscriptions.SqsSubscription q
            ∈ sns.subscriptions (subscribed (requested_subscriptions props) T)).
Proof.
  intros Ht HT. split.
  { destruct (Watchful_new_any _ _ _ _ _ _ _
                (run_pair (Watchful_new cfnRef scope id props σ)))
      as (_ & Htop & _).
    rewrite Ht in Htop. destruct Htop as [subs ->].
    apply set_eq. intros k. by rewrite dom_alter. }
  intros w σ' Hrun.
  destruct (provided_topic_after_new _ _ _ _ _ _ _ _ _ Ht HT Hrun) as [Hw Htop].
  split; [done|]. split; [done|].
  unfold requested_subscriptions. split.
  - intros e He Hne. rewrite He, js_string_nonempty by done. cbn.
    apply elem_of_app. right. apply list_elem_of_here.
  - intros q Hq. rewrite Hq. cbn.
    apply elem_of_app. right. apply elem_of_app. right. apply list_elem_of_here.
Qed.

Lemma Watchful_new_alarmSns_witness :
  let props := mkProps (Some "ops@example.com") (Some Sample.queue) (Some 0)
                 None None None in
  let w := mkWatchful (child Sample.stack "watchful") (Some 0) (Some 0) [] in
  let σ' := (Watchful_new Sample.cfnRef Sample.stack "watchful" props
               Sample.world).2 in
  this_alarmTopic w = Some 0 ∧
  topics σ' = <[0 := sns.mkTopic ["MyStack"; "Ops"] None
                       [sns_subscriptions.EmailSubscription "ops@example.com";
                        sns_subscriptions.SqsSubscription Sample.queue]]>
                (topics Sample.world).
Proof.
  intros props w σ'.
  destruct (Watchful_new_alarmSns Sample.cfnRef Sample.stack "watchful" props
              Sample.world 0 Sample.topic) as [_ Hok];
    [reflexivity | reflexivity |].
  destruct (Hok w σ') as (Hw & Htop & _); [vm_compute; reflexivity|].
  split; [exact Hw | exact Htop].
Defined.

(** C3, as stated, fails: with [alarmSqs] given and [alarmEmail] the empty
    string (and no [alarmSns]) one topic is created, but only the queue is
    subscribed to it; the email given is not. *)
Lemma both_given_empty_email_not_subscribed :
  let props := mkProps (Some "") (Some Sample.queue) None None None None in
  let σ' := (Watchful_new Sample.cfnRef Sample.stack "watchful" props
               Sample.empty_world).2 in
  alarmEmail props = Some "" ∧ alarmSqs props = Some Sample.queue ∧
  alarmSns props = None ∧
  topics σ' = {[0 := alarm_topic (child Sample.stack "watchful")
                       [sns_subscriptions.SqsSubscription Sample.queue]]} ∧
  ¬ ∃ t T, topics σ' !! t = Some T ∧
           sns_subscriptions.EmailSubscription "" ∈ sns.subscriptions T.
Proof.
  intros props σ'.
  assert (topics σ' = {[0 := alarm_topic (child Sample.stack "watchful")
                         [sns_subscriptions.SqsSubscription Sample.queue]]}) as Hσ'
    by (vm_compute; reflexivity).
  split; [reflexivity|]. split; [reflexivity|]. split; [reflexivity|].
  split; [exact Hσ'|].
  intros (t & T & HT & Hin). rewrite Hσ' in HT.
  apply lookup_singleton_Some in HT as [_ <-]. cbn in Hin.
  apply list_elem_of_singleton in Hin. discriminate.
Qed.

(** C3 (amended): a call allocates at most one topic, whatever its outcome;
    after a successful construction the instance holds at most one
    destination, namely any topic the call allocated, and given a non-empty
    [alarmEmail] and an [alarmSqs] without [alarmSns], exactly one topic has
    been allocated, the email and the queue are both subscribed to it, and
    it is the one the instance holds. *)
Theorem Watchful_new_one_channel cfnRef scope id props σ :
  let σ' := (Watchful_new cfnRef scope id props σ).2 in
  (∀ t1 t2, topics σ !! t1 = None → topics σ !! t2 = None →
            is_Some (topics σ' !! t1) → is_Some (topics σ' !! t2) → t1 = t2) ∧
  ∀ w, (Watchful_new cfnRef scope id props σ).1 = Normal w →
    (∀ t, topics σ !! t = None → is_Some (topics σ' !! t) →
          this_alarmTopic w = Some t) ∧
    (∀ e q, alarmEmail props = Some e → e ≠ "" → alarmSqs props = Some q →
            alarmSns props = None →
            ∃ t, topics σ !! t = None ∧
                 topics σ' =
                   <[t := alarm_topic (this_node w)
                            [sns_subscriptions.EmailSubscription e;
                             sns_subscriptions.SqsSubscription q]]> (topics σ) ∧
                 this_alarmTopic w = Some t).
Proof.
  intros σ'. subst σ'. split.
  - intros t1 t2 H1 H2 S1 S2.
    destruct (Watchful_new_new_topic _ _ _ _ _ _ H1 S1) as (_ & ->).
    by destruct (Watchful_new_new_topic _ _ _ _ _ _ H2 S2) as (_ & ->).
  - intros w Hr.
    destruct (Watchful_new cfnRef scope id props σ) as [r σ'] eqn:Hrun.
    cbn in Hr. subst r. cbn [snd].
    pose proof (Watchful_new_Normal _ _ _ _ _ _ _ Hrun) as (_ & [Hnode _] & Htop & _).
    cbn zeta in Htop. split.
    + intros t Hnone Hsome.
      replace σ' with (Watchful_new cfnRef scope id props σ).2 in Hsome
        by by rewrite Hrun.
      destruct (Watchful_new_new_topic _ _ _ _ _ _ Hnone Hsome) as (Hs & ->).
      rewrite Hs in Htop. rewrite Hrun in Hsome. cbn in Hsome.
      destruct (requested_subscriptions props).
      * destruct Htop as [_ Htop]. rewrite Htop, fresh_topic_unused in Hsome.
        by destruct Hsome.
      * by destruct Htop.
    + intros e q He Hne Hq Hs. rewrite Hs in Htop.
      rewrite (requested_both _ _ _ He Hne Hq) in Htop.
      destruct Htop as [Hw Htop]. exists (fresh (dom (topics σ))).
      split; [apply fresh_topic_unused|]. rewrite Hnode. done.
Qed.

Lemma Watchful_new_one_channel_witness :
  let props := mkProps (Some "ops@example.com") (Some Sample.queue) None
                 None None None in
  let w := mkWatchful (child Sample.stack "watchful") (Some 0) (Some 1) [] in
  ∃ t, topics Sample.world !! t = None ∧
       topics (Watchful_new Sample.cfnRef Sample.stack "watchful" props
                 Sample.world).2 =
         <[t := alarm_topic (this_node w)
                  [sns_subscriptions.EmailSubscription "ops@example.com";
                   sns_subscriptions.SqsSubscription Sample.queue]]>
           (topics Sample.world) ∧
       this_alarmTopic w = Some t.
Proof.
  intros props w.
  destruct (Watchful_new_one_channel Sample.cfnRef Sample.stack "watchful" props
              Sample.world) as [_ Hok].
  destruct (Hok w) as [_ Hboth]; [vm_compute; reflexivity|].
  apply (Hboth "ops@example.com" Sample.queue);
    [reflexivity | discriminate | reflexivity | reflexivity].
Defined.

(** C7, as stated, fails: props whose only destination option is [alarmEmail],
    set to the empty string, create no topic at all. *)
Lemma only_empty_email_creates_nothing :
  let props := mkProps (Some "") None None None None None in
  let r := Watchful_new Sample.cfnRef Sample.stack "watchful" props Sample.world in
  alarmEmail props = Some "" ∧ alarmSqs props = None ∧ alarmSns props = None ∧
  topics r.2 = topics Sample.world ∧
  ¬ ∃ t, topics Sample.world !! t = None ∧ is_Some (topics r.2 !! t).
Proof.
  intros props r.
  assert (topics r.2 = topics Sample.world) as Hr by (vm_compute; reflexivity).
  split; [reflexivity|]. split; [reflexivity|]. split; [reflexivity|].
  split; [exact Hr|].
  intros (t & Hnone & Hsome). rewrite Hr, Hnone in Hsome. by destruct Hsome.
Qed.

(** C7 (amended): without [alarmSns], a successful construction from props
    with only a non-empty [alarmEmail] has allocated exactly one topic
    carrying exactly the email subscription, and one from props with only
    [alarmSqs] exactly one topic carrying exactly the queue subscription; the
    instance holds that topic and no other topic has changed. *)
Theorem Watchful_new_single_destination cfnRef scope id props σ w σ' :
  alarmSns props = None →
  Watchful_new cfnRef scope id props σ = (Normal w, σ') →
  (∀ e, alarmEmail props = Some e → e ≠ "" → alarmSqs props = None →
        ∃ t, topics σ !! t = None ∧
             topics σ' =
               <[t := alarm_topic (this_node w)
                        [sns_subscriptions.EmailSubscription e]]> (topics σ) ∧
             this_alarmTopic w = Some t) ∧
  (∀ q, alarmSqs props = Some q → alarmEmail props = None →
        ∃ t, topics σ !! t = None ∧
             topics σ' =
               <[t := alarm_topic (this_node w)
                        [sns_subscriptions.SqsSubscription q]]> (topics σ) ∧
             this_alarmTopic w = Some t).
Proof.
  intros Hs Hrun.
  apply Watchful_new_Normal in Hrun as (_ & [Hnode _] & Htop & _).
  cbn zeta in Htop. rewrite Hs in Htop. rewrite Hnode. split.
  - intros e He Hne Hq. exists (fresh (dom (topics σ))).
    rewrite (requested_email_only _ _ He Hne Hq) in Htop.
    destruct Htop as [Hw Htop]. split; [apply fresh_topic_unused | done].
  - intros q Hq He. exists (fresh (dom (topics σ))).
    rewrite (requested_queue_only _ _ Hq He) in Htop.
    destruct Htop as [Hw Htop]. split; [apply fresh_topic_unused | done].
Qed.

Lemma Watchful_new_single_destination_witness :
  let props := mkProps (Some "ops@example.com") None None None None None in
  let w := mkWatchful (child Sample.stack "watchful") (Some 0) (Some 1) [] in
  ∃ t, topics Sample.world !! t = None ∧
       topics (Watchful_new Sample.cfnRef Sample.stack "watchful" props
                 Sample.world).2 =
         <[t := alarm_topic (this_node w)
                  [sns_subscriptions.EmailSubscription "ops@example.com"]]>
           (topics Sample.world) ∧
       this_alarmTopic w = Some t.
Proof.
  intros props w.
  apply (Watchful_new_single_destination Sample.cfnRef Sample.stack "watchful"
           props Sample.world w
           (Watchful_new Sample.cfnRef Sample.stack "watchful" props
              Sample.world).2);
    [reflexivity | vm_compute; reflexivity | reflexivity | discriminate
    | reflexivity].
Defined.

(** C8: with none of [alarmEmail], [alarmSqs] and [alarmSns] set, the call
    leaves the topics of the store as they were (no topic is created, none
    gets a subscription), whatever its outcome, and an instance it returns
    holds no alarm topic. *)
Theorem Watchful_new_no_destination cfnRef scope id props σ :
  alarmEmail props = None → alarmSqs props = None → alarmSns props = None →
  topics (Watchful_new cfnRef scope id props σ).2 = topics σ ∧
  ∀ w, (Watchful_new cfnRef scope id props σ).1 = Normal w →
       this_alarmTopic w = None.
Proof.
  intros He Hq Hs.
  destruct (Watchful_new cfnRef scope id props σ) as [r σ'] eqn:Hrun.
  cbn [fst snd]. split.
  - rewrite Watchful_new_phases in Hrun.
    destruct (new_Construct_cases scope id σ)
      as [[_ Hc]|[(_ & _ & Hc)|(_ & _ & Hc)]];
      rewrite Hc in Hrun; [by injection Hrun as <- <-.. |].
    match type of Hrun with context [alarm_wiring ?this props ?σ0] =>
      destruct (alarm_wiring this props σ0) as [[topic|e] σ1] eqn:Hw;
      apply alarm_wiring_spec in Hw as (_ & _ & Hwt) end;
      rewrite Hs, (requested_none _ He Hq) in Hwt;
      destruct Hwt as [[=] ->].
    match type of Hrun with context [dashboard_setup ?c ?this props ?σ0] =>
      destruct (dashboard_setup c this props σ0) as [[dash|e] σ2] eqn:Hd;
      apply dashboard_setup_spec in Hd as ((Hdt & _) & _) end;
      injection Hrun as <- <-; by rewrite Hdt.
  - intros w ->.
    apply Watchful_new_Normal in Hrun as (_ & _ & Htop & _).
    rewrite Hs, (requested_none _ He Hq) in Htop. by destruct Htop.
Qed.

Lemma Watchful_new_no_destination_witness :
  topics (Watchful_new Sample.cfnRef Sample.stack "watchful" no_props
            Sample.world).2 = topics Sample.world ∧
  this_alarmTopic (mkWatchful (child Sample.stack "watchful") (Some 0) None [])
    = None.
Proof.
  destruct (Watchful_new_no_destination Sample.cfnRef Sample.stack "watchful"
              no_props Sample.world) as [Htop Hw];
    [reflexivity | reflexivity | reflexivity |].
  split; [exact Htop|]. apply Hw. vm_compute. reflexivity.
Defined.

(** C5, as stated, fails: with dashboards enabled and [dashboardName] equal to
    [ops board], the framework rejects the name at line 101, the constructor
    fails, and neither a dashboard nor an output exists afterwards. *)
Lemma invalid_name_creates_no_dashboard :
  let props := mkProps None None None (Some "ops board") None None in
  let r := Watchful_new Sample.cfnRef Sample.stack "watchful" props Sample.world in
  dashboard props = None ∧
  r.1 = Throw (InvalidDashboardName "ops board") ∧
  outputs r.2 = [] ∧
  ¬ ∃ d, is_Some (dashboards r.2 !! d).
Proof.
  intros props r.
  assert (dashboards r.2 = ∅) as Hd by (vm_compute; reflexivity).
  split; [reflexivity|]. split; [vm_compute; reflexivity|].
  split; [vm_compute; reflexivity|].
  intros (d & D & HD). rewrite Hd, lookup_empty in HD. discriminate.
Qed.

(** C5 (amended): a successful construction from props with [dashboard]
    omitted or [true] has allocated one dashboard (named by [dashboardName],
    empty of widgets), which the instance holds, and has appended one output
    whose value is the console link of that dashboard; with [dashboard] equal
    to [false] no call, successful or not, changes the dashboards or the
    outputs of the store, and an instance it returns holds no dashboard. *)
Theorem Watchful_new_dashboard cfnRef scope id props σ :
  (dashboard props = Some false →
   dashboards (Watchful_new cfnRef scope id props σ).2 = dashboards σ ∧
   outputs (Watchful_new cfnRef scope id props σ).2 = outputs σ) ∧
  ∀ w σ', Watchful_new cfnRef scope id props σ = (Normal w, σ') →
    (dashboard props = None ∨ dashboard props = Some true →
     ∃ d, dashboards σ !! d = None ∧
          dashboards σ' =
            <[d := dashboard_of cfnRef (this_node w) props]> (dashboards σ) ∧
          outputs σ' =
            (outputs σ ++
               [mkCfnOutput (nodePath (child (this_node w) "WatchfulDashboard"))
                  (linkForDashboard (dashboard_of cfnRef (this_node w) props))])%list ∧
          this_dash w = Some d) ∧
    (dashboard props = Some false → this_dash w = None).
Proof.
  split.
  - intros Hoff.
    destruct (Watchful_new cfnRef scope id props σ) as [r σ'] eqn:Hrun.
    cbn [snd]. rewrite Watchful_new_phases in Hrun.
    destruct (new_Construct_cases scope id σ)
      as [[_ Hc]|[(_ & _ & Hc)|(_ & _ & Hc)]];
      rewrite Hc in Hrun; [by injection Hrun as <- <-.. |].
    match type of Hrun with context [alarm_wiring ?this props ?σ0] =>
      destruct (alarm_wiring this props σ0) as [[topic|e] σ1] eqn:Hw;
      apply alarm_wiring_spec in Hw as (Hwd & Hwo & _) end;
      cbn [register dashboards outputs] in Hwd, Hwo;
      [|by injection Hrun as <- <-].
    match type of Hrun with context [dashboard_setup ?c ?this props ?σ0] =>
      destruct (dashboard_setup c this props σ0) as [[dash|e] σ2] eqn:Hd;
      apply dashboard_setup_spec in Hd as (_ & Hdd) end;
      injection Hrun as <- <-;
      rewrite Hoff in Hdd; cbn [is_false] in Hdd;
      destruct (rejected props); destruct Hdd as [_ ->]; done.
  - intros w σ' Hrun.
    apply Watchful_new_Normal in Hrun as (_ & [Hnode _] & _ & Hdash).
    cbn zeta in Hdash. rewrite Hnode. split.
    + intros Hon.
      assert (is_false (dashboard props) = false) as Hf
        by (destruct Hon as [-> | ->]; reflexivity).
      rewrite Hf in Hdash. destruct Hdash as (Hw & Hd & Ho).
      eexists. split; [apply fresh_dashboard_unused | done].
    + intros Hoff. rewrite Hoff in Hdash. by destruct Hdash.
Qed.

Lemma Watchful_new_dashboard_witness :
  let off := mkProps None None None None None (Some false) in
  let w := mkWatchful (child Sample.stack "watchful") (Some 0) None [] in
  (dashboards (Watchful_new Sample.cfnRef Sample.stack "watchful" off
                 Sample.world).2 = dashboards Sample.world ∧
   outputs (Watchful_new Sample.cfnRef Sample.stack "watchful" off
              Sample.world).2 = outputs Sample.world) ∧
  ∃ d, dashboards Sample.world !! d = None ∧
       dashboards (Watchful_new Sample.cfnRef Sample.stack "watchful" no_props
                     Sample.world).2 =
         <[d := dashboard_of Sample.cfnRef (this_node w) no_props]>
           (dashboards Sample.world) ∧
       outputs (Watchful_new Sample.cfnRef Sample.stack "watchful" no_props
                  Sample.world).2 =
         (outputs Sample.world ++
            [mkCfnOutput (nodePath (child (this_node w) "WatchfulDashboard"))
               (linkForDashboard
                  (dashboard_of Sample.cfnRef (this_node w) no_props))])%list ∧
       this_dash w = Some d.
Proof.
  intros off w. split.
  - apply (Watchful_new_dashboard Sample.cfnRef Sample.stack "watchful" off
             Sample.world). reflexivity.
  - destruct (Watchful_new_dashboard Sample.cfnRef Sample.stack "watchful"
                no_props Sample.world) as [_ Hok].
    destruct (Hok w (Watchful_new Sample.cfnRef Sample.stack "watchful" no_props
                       Sample.world).2) as [Hon _];
      [vm_compute; reflexivity|].
    apply Hon. by left.
Defined.

(** C6: whenever dashboard creation is enabled ([dashboard] is not [false])
    and the construction succeeds, the value of the output the constructor
    has emitted is
    [https://console.aws.amazon.com/cloudwatch/home?region=<region>#dashboards:name=<dashboard-id>]
    with the region of the stack and the reference of the dashboard the
    instance holds. *)
Theorem Watchful_new_output_value cfnRef scope id props σ w σ' :
  dashboard props ≠ Some false →
  Watchful_new cfnRef scope id props σ = (Normal w, σ') →
  ∃ d D,
    this_dash w = Some d ∧ dashboards σ' !! d = Some D ∧
    cloudwatch.region D = stackRegion scope ∧
    outputs σ' =
      (outputs σ ++
         [mkCfnOutput (nodePath (child (this_node w) "WatchfulDashboard"))
            ("https://console.aws.amazon.com/cloudwatch/home?region="
               +:+ stackRegion scope +:+ "#dashboards:name=" +:+ cloudwatch.ref D)])%list.
Proof.
  intros Hon Hrun.
  apply Watchful_new_Normal in Hrun as (_ & [Hnode _] & _ & Hdash).
  cbn zeta in Hdash.
  assert (is_false (dashboard props) = false) as Hf
    by (destruct (dashboard props) as [[|]|]; done).
  rewrite Hf in Hdash. destruct Hdash as (Hw & Hd & Ho).
  eexists _, _. split; [exact Hw|].
  split; [rewrite Hd; apply lookup_insert_eq|].
  split; [reflexivity|]. rewrite Ho, Hnode. reflexivity.
Qed.

Lemma Watchful_new_output_value_witness :
  let w := mkWatchful (child Sample.stack "watchful") (Some 0) None [] in
  let σ' := (Watchful_new Sample.cfnRef Sample.stack "watchful" no_props
               Sample.world).2 in
  ∃ d D,
    this_dash w = Some d ∧ dashboards σ' !! d = Some D ∧
    cloudwatch.region D = "eu-west-1" ∧
    outputs σ' =
      (outputs Sample.world ++
         [mkCfnOutput (nodePath (child (this_node w) "WatchfulDashboard"))
            ("https://console.aws.amazon.com/cloudwatch/home?region="
               +:+ "eu-west-1" +:+ "#dashboards:name=" +:+ cloudwatch.ref D)])%list.
Proof.
  intros w σ'.
  apply (Watchful_new_output_value Sample.cfnRef Sample.stack "watchful" no_props
           Sample.world w σ'); [discriminate | vm_compute; reflexivity].
Defined.

Example Watchful_new_output_sample :
  outputs (Watchful_new Sample.cfnRef Sample.stack "watchful" no_props
             Sample.world).2 =
  [mkCfnOutput ["MyStack"; "watchful"; "WatchfulDashboard"]
     "https://console.aws.amazon.com/cloudwatch/home?region=eu-west-1#dashboards:name=MyStackwatchfulDashboard"].
Proof. vm_compute. reflexivity. Qed.

(** C4: [addAlarm] appends to the actions of the alarm one SNS action when
    the instance holds an alarm topic, then one action per configured ARN, in
    the order of the list, and nothing else; so the number of actions grows by
    the number of ARNs plus one for the topic, and with no topic and no ARN
    the alarm is unchanged. *)
Theorem addAlarm_actions (w : Watchful) (a : cloudwatch.Alarm) :
  cloudwatch.alarmActions (addAlarm w a) =
    (cloudwatch.alarmActions a ++ topic_actions w
       ++ (cloudwatch.ArnAction <$> this_alarmActionArns w))%list ∧
  cloudwatch.alarmName (addAlarm w a) = cloudwatch.alarmName a ∧
  length (cloudwatch.alarmActions (addAlarm w a)) =
    length (cloudwatch.alarmActions a)
    + match this_alarmTopic w with Some _ => 1 | None => 0 end
    + length (this_alarmActionArns w) ∧
  (this_alarmTopic w = None → this_alarmActionArns w = [] → addAlarm w a = a).
Proof.
  destruct w as [node dash [t|] arns], a as [name actions];
    unfold addAlarm, topic_actions, cloudwatch.addAlarmAction; cbn.
  - rewrite <- app_assoc. split; [reflexivity|]. split; [reflexivity|].
    split; [|discriminate].
    rewrite !length_app, length_fmap. cbn. lia.
  - split; [reflexivity|]. split; [reflexivity|]. split.
    + rewrite length_app, length_fmap. lia.
    + intros _ ->. cbn. by rewrite app_nil_r.
Qed.

Lemma addAlarm_actions_witness :
  addAlarm (mkWatchful (child Sample.stack "watchful") None None []) Sample.alarm
  = Sample.alarm.
Proof.
  apply (addAlarm_actions
           (mkWatchful (child Sample.stack "watchful") None None [])
           Sample.alarm); reflexivity.
Defined.

Example addAlarm_sample :
  cloudwatch.alarmActions
    (addAlarm (mkWatchful (child Sample.stack "watchful") None (Some 0)
                 ["arn:a"; "arn:b"]) Sample.alarm) =
  [cloudwatch.ArnAction "arn:aws:sns:eu-west-1:1:pager"; cloudwatch.SnsAction 0;
   cloudwatch.ArnAction "arn:a"; cloudwatch.ArnAction "arn:b"].
Proof. reflexivity. Qed.

(** C9: on an instance constructed with [dashboard] equal to [false],
    [addWidgets] with any widgets and [addSection] with any title and options
    complete normally and leave every store they run in unchanged. *)
Theorem addWidgets_dashboard_disabled cfnRef scope id props σ0 w σ1 :
  dashboard props = Some false →
  Watchful_new cfnRef scope id props σ0 = (Normal w, σ1) →
  ∀ ws title options σ,
    addWidgets w ws σ = (Normal (), σ) ∧
    addSection w title options σ = (Normal (), σ).
Proof.
  intros Hoff Hrun ws title options σ.
  apply Watchful_new_Normal in Hrun as (_ & _ & _ & Hdash).
  rewrite Hoff in Hdash. cbn [is_false] in Hdash. destruct Hdash as [Hw _].
  unfold addSection, addWidgets. rewrite Hw. split; reflexivity.
Qed.

Lemma addWidgets_dashboard_disabled_witness :
  let w := mkWatchful (child Sample.stack "watchful") None None [] in
  addWidgets w [cloudwatch.Widget "{}"] Sample.world = (Normal (), Sample.world) ∧
  addSection w "Orders" (mkSectionOptions None) Sample.world
    = (Normal (), Sample.world).
Proof.
  intros w.
  apply (addWidgets_dashboard_disabled Sample.cfnRef Sample.stack "watchful"
           (mkProps None None None None None (Some false)) Sample.world w
           (register ["MyStack"; "watchful"] Sample.world));
    [reflexivity | vm_compute; reflexivity].
Defined.

(** With a dashboard, by contrast, [addWidgets] appends to its widgets. *)
Example addWidgets_enabled_sample :
  let '(r, σ1) := Watchful_new Sample.cfnRef Sample.stack "watchful" no_props
                    Sample.world in
  match r with
  | Normal w =>
      cloudwatch.widgets <$>
        (dashboards (addSection w "Orders" (mkSectionOptions None) σ1).2 !! 0)
      = Some [cloudwatch.SectionWidget (mkSectionWidgetProps 1 "Orders" None)]
  | Throw _ => False
  end.
Proof. vm_compute. reflexivity. Qed.

(** C10, as stated, fails: with [alarmSns] given next to [alarmEmail], the
    rejected call allocates no alarm topic before it raises the error; it
    only subscribes the email to the provided topic. *)
Lemma rejected_with_alarmSns_creates_no_topic :
  let props := mkProps (Some "ops@example.com") None (Some 0) (Some "ops") None
                 (Some false) in
  let r := Watchful_new Sample.cfnRef Sample.stack "watchful" props Sample.world in
  name_without_dashboard props ∧ alarmEmail props = Some "ops@example.com" ∧
  r.1 = Throw dashboard_name_error ∧
  topics r.2 = {[0 := subscribed
                        [sns_subscriptions.EmailSubscription "ops@example.com"]
                        Sample.topic]} ∧
  ¬ ∃ t, topics Sample.world !! t = None ∧ is_Some (topics r.2 !! t).
Proof.
  intros props r.
  assert (topics r.2 = {[0 := subscribed
                          [sns_subscriptions.EmailSubscription "ops@example.com"]
                          Sample.topic]}) as Hr by (vm_compute; reflexivity).
  split; [split; [reflexivity | exists "ops"; split; [reflexivity | discriminate]]|].
  split; [reflexivity|]. split; [reflexivity|]. split; [exact Hr|].
  intros (t & Hnone & Hsome). rewrite Hr in Hsome.
  destruct Hsome as [T HT]. apply lookup_singleton_Some in HT as [<- _].
  discriminate Hnone.
Qed.

(** C10 (amended): the validation error is not atomic.  Whenever the
    constructor raises the configuration error for props with a non-empty
    [alarmEmail] and/or an [alarmSqs], the topics of the store have already
    changed: without [alarmSns] a new alarm topic carrying the requested
    subscriptions has been allocated, and with [alarmSns] the requested
    subscriptions have been added to the provided topic. *)
Theorem Watchful_new_error_not_atomic cfnRef scope id props σ σ' :
  Watchful_new cfnRef scope id props σ = (Throw dashboard_name_error, σ') →
  (∃ e, alarmEmail props = Some e ∧ e ≠ "") ∨ (∃ q, alarmSqs props = Some q) →
  name_without_dashboard props ∧
  requested_subscriptions props ≠ [] ∧
  match alarmSns props with
  | None =>
      ∃ t, topics σ !! t = None ∧
           topics σ' =
             <[t := alarm_topic (child scope id) (requested_subscriptions props)]>
               (topics σ) ∧
           topics σ' ≠ topics σ
  | Some t =>
      ∀ T, topics σ !! t = Some T →
           topics σ' =
             <[t := subscribed (requested_subscriptions props) T]> (topics σ) ∧
           topics σ' ≠ topics σ
  end.
Proof.
  intros Hrun Hdest.
  assert (requested_subscriptions props ≠ []) as Hreq.
  { unfold requested_subscriptions.
    destruct Hdest as [(e & He & Hne) | (q & Hq)].
    - rewrite He, js_string_nonempty by done. discriminate.
    - rewrite Hq. destruct (js_string (alarmEmail props)); discriminate. }
  apply Watchful_new_config_error in Hrun as (Hrej & _ & _ & topic & Hw).
  split; [by apply rejected_true|]. split; [done|].
  apply alarm_wiring_spec in Hw as (_ & _ & Hwt).
  cbn [register topics] in Hwt.
  destruct (alarmSns props) as [t|].
  - intros T HT.
    destruct Hwt as (_ & subs & Htop & [[_ ->]|(e & [=] & _)]).
    assert (topics σ' =
            <[t := subscribed (requested_subscriptions props) T]> (topics σ)) as ->.
    { rewrite Htop. apply map_eq. intros k. destruct (decide (k = t)) as [->|Hk].
      - by rewrite lookup_alter_eq, lookup_insert_eq, HT.
      - by rewrite lookup_alter_ne, lookup_insert_ne. }
    split; [done | by apply subscribed_changes].
  - destruct (requested_subscriptions props) as [|s subs] eqn:Hsubs; [done|].
    destruct Hwt as [[(e & [=] & _) _]|(_ & Htop & _)].
    exists (fresh (dom (topics σ))).
    split; [apply fresh_topic_unused|]. split; [exact Htop|].
    rewrite Htop. intros Heq.
    apply (f_equal (λ m, m !! fresh (dom (topics σ)))) in Heq.
    rewrite lookup_insert_eq, fresh_topic_unused in Heq. discriminate.
Qed.

Lemma Watchful_new_error_not_atomic_witness :
  let props := mkProps (Some "ops@example.com") None None (Some "ops") None
                 (Some false) in
  let σ' := (Watchful_new Sample.cfnRef Sample.stack "watchful" props
               Sample.world).2 in
  name_without_dashboard props ∧
  requested_subscriptions props ≠ [] ∧
  ∃ t, topics Sample.world !! t = None ∧
       topics σ' =
         <[t := alarm_topic (child Sample.stack "watchful")
                  (requested_subscriptions props)]> (topics Sample.world) ∧
       topics σ' ≠ topics Sample.world.
Proof.
  intros props σ'.
  apply (Watchful_new_error_not_atomic Sample.cfnRef Sample.stack "watchful" props
           Sample.world σ').
  - vm_compute. reflexivity.
  - left. exists "ops@example.com". split; [reflexivity | discriminate].
Defined.

(** ** Further properties of the code *)

(** *** What a construction call leaves alone *)

(** X1: a construction call never removes a topic and never changes a topic
    other than the one given as [alarmSns]; the given topic keeps its node,
    its display name and the subscriptions it had, which stay in front of
    the ones the call adds. *)
Theorem Watchful_new_topics_frame cfnRef scope id props σ t T :
  topics σ !! t = Some T →
  let σ' := (Watchful_new cfnRef scope id props σ).2 in
  (alarmSns props ≠ Some t → topics σ' !! t = Some T) ∧
  (alarmSns props = Some t →
   ∃ T', topics σ' !! t = Some T' ∧
         sns.node T' = sns.node T ∧ sns.displayName T' = sns.displayName T ∧
         sns.subscriptions T `prefix_of` sns.subscriptions T').
Proof.
  intros HT σ'. subst σ'. split.
  - intros Hs. by apply new_keeps_other_topics.
  - intros Hs.
    destruct (new_extends_given_topic cfnRef scope id props σ t T Hs HT)
      as [subs ->].
    eexists. split; [reflexivity|].
    split; [reflexivity|]. split; [reflexivity|]. cbn. by exists subs.
Qed.

Lemma Watchful_new_topics_frame_witness :
  let props := mkProps (Some "ops@example.com") None (Some 0) None None None in
  ∃ T', topics (Watchful_new Sample.cfnRef Sample.stack "watchful" props
                  (mkWorld {[0 := sns.mkTopic ["MyStack"; "Ops"] (Some "Ops")
                                    [sns_subscriptions.SqsSubscription Sample.queue]]}
                     ∅ [] ∅)).2 !! 0 = Some T' ∧
        sns.node T' = ["MyStack"; "Ops"] ∧ sns.displayName T' = Some "Ops" ∧
        [sns_subscriptions.SqsSubscription Sample.queue]
          `prefix_of` sns.subscriptions T'.
Proof.
  intros props.
  apply (Watchful_new_topics_frame Sample.cfnRef Sample.stack "watchful" props
           (mkWorld {[0 := sns.mkTopic ["MyStack"; "Ops"] (Some "Ops")
                             [sns_subscriptions.SqsSubscription Sample.queue]]}
              ∅ [] ∅) 0
           (sns.mkTopic ["MyStack"; "Ops"] (Some "Ops")
              [sns_subscriptions.SqsSubscription Sample.queue]));
    reflexivity.
Defined.

(** X2: a construction call never changes or removes a dashboard that
    exists, keeps every output in place and appends at most one, and
    allocates at most one dashboard; this holds for all props, rejected ones
    included. *)
Theorem Watchful_new_dashboards_frame cfnRef scope id props σ :
  let σ' := (Watchful_new cfnRef scope id props σ).2 in
  (∀ d D, dashboards σ !! d = Some D → dashboards σ' !! d = Some D) ∧
  outputs σ `prefix_of` outputs σ' ∧
  (length (outputs σ') ≤ S (length (outputs σ)))%nat ∧
  (size (dashboards σ') ≤ S (size (dashboards σ)))%nat.
Proof.
  intros σ'. subst σ'.
  split; [intros d D; apply new_keeps_dashboards|].
  destruct (Watchful_new_any _ _ _ _ _ _ _
              (run_pair (Watchful_new cfnRef scope id props σ)))
    as (_ & _ & Hd & Ho).
  split; [destruct Ho as [-> | ->]; [done | by eexists]|].
  split.
  - destruct Ho as [-> | ->]; [lia|]. rewrite length_app. cbn. lia.
  - destruct Hd as [-> | ->]; [lia|].
    rewrite map_size_insert_None by apply fresh_dashboard_unused. lia.
Qed.

Lemma Watchful_new_dashboards_frame_witness :
  let D := cloudwatch.mkDashboard ["MyStack"; "Board"] (Some "board") "eu-west-1"
             "MyStackBoard" [cloudwatch.Widget "{}"] in
  dashboards (Watchful_new Sample.cfnRef Sample.stack "watchful" no_props
                (mkWorld ∅ {[0 := D]} [] ∅)).2 !! 0 = Some D.
Proof.
  intros D.
  apply (Watchful_new_dashboards_frame Sample.cfnRef Sample.stack "watchful"
           no_props (mkWorld ∅ {[0 := D]} [] ∅)).
  reflexivity.
Defined.

(** *** The references an instance holds *)

Lemma addWidgets_store (w : Watchful) ws σ :
  (addWidgets w ws σ).1 = Normal () ∧
  topics (addWidgets w ws σ).2 = topics σ ∧
  outputs (addWidgets w ws σ).2 = outputs σ ∧
  dashboards (addWidgets w ws σ).2 =
    match this_dash w with
    | Some d => alter (cloudwatch.addWidgets ws) d (dashboards σ)
    | None => dashboards σ
    end.
Proof. unfold addWidgets. destruct (this_dash w); cbn; done. Qed.

(** The references a successful call hands to its instance are new ones,
    except for a topic given as [alarmSns]. *)
Lemma new_allocates cfnRef scope id props σ w σ' :
  Watchful_new cfnRef scope id props σ = (Normal w, σ') →
  (∀ d, this_dash w = Some d →
        dashboards σ !! d = None ∧ is_Some (dashboards σ' !! d)) ∧
  (∀ t, alarmSns props = None → this_alarmTopic w = Some t →
        topics σ !! t = None ∧ is_Some (topics σ' !! t)).
Proof.
  intros Hrun.
  apply Watchful_new_Normal in Hrun as (_ & _ & Htop & Hdash).
  cbn zeta in Htop, Hdash. split.
  - intros d Hd. destruct (is_false (dashboard props)).
    + destruct Hdash as [Hw _]. congruence.
    + destruct Hdash as (Hw & -> & _). rewrite Hw in Hd. injection Hd as <-.
      split; [apply fresh_dashboard_unused|]. rewrite lookup_insert_eq. eauto.
  - intros t Hs Ht. rewrite Hs in Htop.
    destruct (requested_subscriptions props).
    + destruct Htop as [Hw _]. congruence.
    + destruct Htop as [Hw ->]. rewrite Hw in Ht. injection Ht as <-.
      split; [apply fresh_topic_unused|]. rewrite lookup_insert_eq. eauto.
Qed.

(** X4: after a successful construction the references of the instance
    resolve: the dashboard it holds is in the store, and so is its alarm
    topic, provided a topic given as [alarmSns] was. *)
Theorem Watchful_new_live cfnRef scope id props σ w σ' :
  (∀ t, alarmSns props = Some t → is_Some (topics σ !! t)) →
  Watchful_new cfnRef scope id props σ = (Normal w, σ') →
  (∀ d, this_dash w = Some d → is_Some (dashboards σ' !! d)) ∧
  (∀ t, this_alarmTopic w = Some t → is_Some (topics σ' !! t)).
Proof.
  intros Hgiven Hrun. split.
  - intros d Hd.
    by destruct (new_allocates _ _ _ _ _ _ _ Hrun) as [Hdash _];
      destruct (Hdash d Hd).
  - intros t Ht. destruct (alarmSns props) as [t'|] eqn:Hs.
    + pose proof (Watchful_new_Normal _ _ _ _ _ _ _ Hrun) as (_ & _ & Htop & _).
      rewrite Hs in Htop. destruct Htop as [Hw _].
      rewrite Hw in Ht. injection Ht as <-.
      replace σ' with (Watchful_new cfnRef scope id props σ).2 by by rewrite Hrun.
      apply new_keeps_topic_alive. by apply Hgiven.
    + by destruct (new_allocates _ _ _ _ _ _ _ Hrun) as [_ Htopic];
        destruct (Htopic t Hs Ht).
Qed.

Lemma Watchful_new_live_witness :
  let props := mkProps None (Some Sample.queue) None None None None in
  let w := mkWatchful (child Sample.stack "watchful") (Some 0) (Some 1) [] in
  let σ' := (Watchful_new Sample.cfnRef Sample.stack "watchful" props
               Sample.world).2 in
  (∀ d, this_dash w = Some d → is_Some (dashboards σ' !! d)) ∧
  (∀ t, this_alarmTopic w = Some t → is_Some (topics σ' !! t)).
Proof.
  intros props w σ'.
  apply (Watchful_new_live Sample.cfnRef Sample.stack "watchful" props
           Sample.world w σ'); [discriminate | vm_compute; reflexivity].
Defined.

(** X5: the references of an instance keep resolving whatever is done next
    with the store: widgets or a section added through any instance, or
    another construction call, successful or rejected. *)
Theorem live_preserved (w : Watchful) (σ : World) :
  live w σ →
  (∀ w' ws, live w (addWidgets w' ws σ).2) ∧
  (∀ w' title options, live w (addSection w' title options σ).2) ∧
  (∀ cfnRef scope id props, live w (Watchful_new cfnRef scope id props σ).2).
Proof.
  intros [Hd Ht].
  assert (∀ w' ws, live w (addWidgets w' ws σ).2) as Hadd.
  { intros w' ws. destruct (addWidgets_store w' ws σ) as (_ & Ht' & _ & Hd').
    split.
    - intros d Hw. rewrite Hd'. destruct (this_dash w'); [|by apply Hd].
      apply lookup_alter_is_Some. by apply Hd.
    - intros t Hw. rewrite Ht'. by apply Ht. }
  split; [exact Hadd|]. split.
  - intros w' title options. apply Hadd.
  - intros cfnRef scope id props. split.
    + intros d Hw. destruct (Hd d Hw) as [D HD].
      rewrite (new_keeps_dashboards _ _ _ _ _ _ _ HD). eauto.
    + intros t Hw. apply new_keeps_topic_alive. by apply Ht.
Qed.

Lemma live_preserved_witness :
  let w := mkWatchful (child Sample.stack "watchful") None (Some 0) [] in
  live w (Watchful_new Sample.cfnRef Sample.stack "second"
            (mkProps (Some "ops@example.com") None None None None None)
            Sample.world).2.
Proof.
  intros w.
  apply (live_preserved w Sample.world).
  split; cbn; [discriminate|].
  intros t [= <-]. vm_compute. eauto.
Defined.

(** X6: two instances constructed one after the other never hold the same
    dashboard, and never the same alarm topic unless one was given as
    [alarmSns]; the second construction leaves the dashboard of the first
    as it was. *)
Theorem Watchful_new_twice cfnRef scope1 id1 props1 scope2 id2 props2 σ0 w1 σ1 w2 σ2 :
  Watchful_new cfnRef scope1 id1 props1 σ0 = (Normal w1, σ1) →
  Watchful_new cfnRef scope2 id2 props2 σ1 = (Normal w2, σ2) →
  (∀ d1 d2, this_dash w1 = Some d1 → this_dash w2 = Some d2 → d1 ≠ d2) ∧
  (∀ d1, this_dash w1 = Some d1 → dashboards σ2 !! d1 = dashboards σ1 !! d1) ∧
  (∀ t1 t2, alarmSns props1 = None → alarmSns props2 = None →
            this_alarmTopic w1 = Some t1 → this_alarmTopic w2 = Some t2 →
            t1 ≠ t2).
Proof.
  intros Hrun1 Hrun2.
  destruct (new_allocates _ _ _ _ _ _ _ Hrun1) as [Hd1 Ht1].
  destruct (new_allocates _ _ _ _ _ _ _ Hrun2) as [Hd2 Ht2].
  split; [|split].
  - intros d1 d2 H1 H2 <-.
    destruct (Hd1 _ H1) as [_ [D HD]]. destruct (Hd2 _ H2) as [Hnone _].
    congruence.
  - intros d1 H1. destruct (Hd1 _ H1) as [_ [D HD]].
    replace σ2 with (Watchful_new cfnRef scope2 id2 props2 σ1).2
      by by rewrite Hrun2.
    by rewrite (new_keeps_dashboards _ _ _ _ _ _ _ HD).
  - intros t1 t2 Hs1 Hs2 H1 H2 <-.
    destruct (Ht1 _ Hs1 H1) as [_ [T HT]]. destruct (Ht2 _ Hs2 H2) as [Hnone _].
    congruence.
Qed.

Lemma Watchful_new_twice_witness :
  let props := mkProps (Some "ops@example.com") None None None None None in
  let w1 := mkWatchful (child Sample.stack "first") (Some 0) (Some 1) [] in
  let w2 := mkWatchful (child Sample.stack "second") (Some 1) (Some 2) [] in
  let σ1 := (Watchful_new Sample.cfnRef Sample.stack "first" props
               Sample.world).2 in
  let σ2 := (Watchful_new Sample.cfnRef Sample.stack "second" props σ1).2 in
  (∀ d1 d2, this_dash w1 = Some d1 → this_dash w2 = Some d2 → d1 ≠ d2) ∧
  (∀ d1, this_dash w1 = Some d1 → dashboards σ2 !! d1 = dashboards σ1 !! d1) ∧
  (∀ t1 t2, alarmSns props = None → alarmSns props = None →
            this_alarmTopic w1 = Some t1 → this_alarmTopic w2 = Some t2 →
            t1 ≠ t2).
Proof.
  intros props w1 w2 σ1 σ2.
  apply (Watchful_new_twice Sample.cfnRef Sample.stack "first" props
           Sample.stack "second" props Sample.world w1 σ1 w2 σ2);
    vm_compute; reflexivity.
Defined.

(** *** Widgets and sections on a dashboard *)

(** X7: on an instance constructed with dashboards enabled, two sections
    added one after the other are the only widgets of its dashboard, in the
    order they were added, each a level-1 heading with its title and links;
    topics, outputs and all other dashboards are left as they were. *)
Theorem addSection_in_order cfnRef scope id props σ0 w σ1 title1 o1 title2 o2 :
  dashboard props ≠ Some false →
  Watchful_new cfnRef scope id props σ0 = (Normal w, σ1) →
  let σ3 := (addSection w title2 o2 (addSection w title1 o1 σ1).2).2 in
  ∃ d, this_dash w = Some d ∧
       cloudwatch.widgets <$> dashboards σ3 !! d =
         Some [section_widget title1 o1; section_widget title2 o2] ∧
       (∀ d', d' ≠ d → dashboards σ3 !! d' = dashboards σ1 !! d') ∧
       topics σ3 = topics σ1 ∧ outputs σ3 = outputs σ1.
Proof.
  intros Hon Hrun σ3. subst σ3.
  apply Watchful_new_Normal in Hrun as (_ & _ & _ & Hdash).
  cbn zeta in Hdash.
  assert (is_false (dashboard props) = false) as Hf
    by (destruct (dashboard props) as [[|]|]; done).
  rewrite Hf in Hdash. destruct Hdash as (Hw & Hd & _).
  exists (fresh (dom (dashboards σ0))). split; [exact Hw|].
  unfold addSection, addWidgets. rewrite Hw. cbn.
  split; [|split; [|done]].
  - rewrite !lookup_alter_eq, Hd, lookup_insert_eq. reflexivity.
  - intros d' Hne. by rewrite !lookup_alter_ne.
Qed.

Lemma addSection_in_order_witness :
  let w := mkWatchful (child Sample.stack "watchful") (Some 0) None [] in
  let σ1 := (Watchful_new Sample.cfnRef Sample.stack "watchful" no_props
               Sample.world).2 in
  let σ3 := (addSection w "Orders" (mkSectionOptions None)
               (addSection w "Users" (mkSectionOptions None) σ1).2).2 in
  ∃ d, this_dash w = Some d ∧
       cloudwatch.widgets <$> dashboards σ3 !! d =
         Some [section_widget "Users" (mkSectionOptions None);
               section_widget "Orders" (mkSectionOptions None)] ∧
       (∀ d', d' ≠ d → dashboards σ3 !! d' = dashboards σ1 !! d') ∧
       topics σ3 = topics σ1 ∧ outputs σ3 = outputs σ1.
Proof.
  intros w σ1 σ3.
  apply (addSection_in_order Sample.cfnRef Sample.stack "watchful" no_props
           Sample.world w σ1);
    [discriminate | vm_compute; reflexivity].
Defined.

Lemma addWidgets_each_store (w : Watchful) d wss : ∀ σ D,
  this_dash w = Some d →
  dashboards σ !! d = Some D →
  dashboards (addWidgets_each w wss σ) !! d =
    Some (cloudwatch.addWidgets (concat wss) D) ∧
  topics (addWidgets_each w wss σ) = topics σ ∧
  outputs (addWidgets_each w wss σ) = outputs σ.
Proof.
  induction wss as [|ws wss IH]; intros σ D Hw HD.
  - cbn. destruct D. unfold cloudwatch.addWidgets. cbn. by rewrite app_nil_r.
  - change (addWidgets_each w (ws :: wss) σ)
      with (addWidgets_each w wss (addWidgets w ws σ).2).
    destruct (addWidgets_store w ws σ) as (_ & Ht & Ho & Hd).
    rewrite Hw in Hd.
    assert (dashboards (addWidgets w ws σ).2 !! d =
            Some (cloudwatch.addWidgets ws D)) as HD'
      by (by rewrite Hd, lookup_alter_eq, HD).
    destruct (IH _ _ Hw HD') as (-> & -> & ->).
    split; [|done]. unfold cloudwatch.addWidgets. cbn. by rewrite app_assoc.
Qed.

(** X11: widgets added later do not invalidate the output emitted at
    construction.  After any sequence of [addWidgets] calls on an instance
    constructed with dashboards enabled, the dashboard it holds has exactly
    the widgets of those calls, in order, and the last output of the store is
    still the console link of that dashboard. *)
Theorem output_link_stable cfnRef scope id props σ0 w σ1 wss :
  dashboard props ≠ Some false →
  Watchful_new cfnRef scope id props σ0 = (Normal w, σ1) →
  let σ2 := addWidgets_each w wss σ1 in
  ∃ d D, this_dash w = Some d ∧ dashboards σ2 !! d = Some D ∧
         cloudwatch.widgets D = concat wss ∧
         last (outputs σ2) =
           Some (mkCfnOutput (nodePath (child (this_node w) "WatchfulDashboard"))
                   (linkForDashboard D)).
Proof.
  intros Hon Hrun σ2. subst σ2.
  apply Watchful_new_Normal in Hrun as (_ & [Hnode _] & _ & Hdash).
  cbn zeta in Hdash.
  assert (is_false (dashboard props) = false) as Hf
    by (destruct (dashboard props) as [[|]|]; done).
  rewrite Hf in Hdash. destruct Hdash as (Hw & Hd & Ho).
  assert (dashboards σ1 !! fresh (dom (dashboards σ0)) =
          Some (dashboard_of cfnRef (child scope id) props)) as HD
    by (by rewrite Hd, lookup_insert_eq).
  destruct (addWidgets_each_store w _ wss σ1 _ Hw HD) as (HD' & _ & Ho').
  eexists _, _. split; [exact Hw|]. split; [exact HD'|].
  split; [reflexivity|].
  rewrite Ho', Ho, last_snoc, Hnode. reflexivity.
Qed.

Lemma output_link_stable_witness :
  let w := mkWatchful (child Sample.stack "watchful") (Some 0) None [] in
  let σ1 := (Watchful_new Sample.cfnRef Sample.stack "watchful" no_props
               Sample.world).2 in
  let wss := [[cloudwatch.Widget "a"; cloudwatch.Widget "b"]; [];
              [cloudwatch.Widget "c"]] in
  ∃ d D, this_dash w = Some d ∧
         dashboards (addWidgets_each w wss σ1) !! d = Some D ∧
         cloudwatch.widgets D = concat wss ∧
         last (outputs (addWidgets_each w wss σ1)) =
           Some (mkCfnOutput (nodePath (child (this_node w) "WatchfulDashboard"))
                   (linkForDashboard D)).
Proof.
  intros w σ1 wss.
  apply (output_link_stable Sample.cfnRef Sample.stack "watchful" no_props
           Sample.world w σ1);
    [discriminate | vm_compute; reflexivity].
Defined.

(** *** Alarms *)

Lemma addAlarm_list (w : Watchful) (a : cloudwatch.Alarm) :
  addAlarm w a =
  cloudwatch.mkAlarm (cloudwatch.alarmName a)
    (cloudwatch.alarmActions a ++
       (topic_actions w ++ (cloudwatch.ArnAction <$> this_alarmActionArns w)))%list.
Proof.
  destruct w as [node dash [t|] arns], a as [name actions];
    unfold addAlarm, topic_actions, cloudwatch.addAlarmAction; cbn;
    by rewrite <- ?app_assoc.
Qed.

(** X8: [addAlarm] is not idempotent.  Attaching the same alarm twice gives
    it every action twice, and the second call changes nothing only when the
    instance has neither an alarm topic nor a configured ARN. *)
Theorem addAlarm_twice (w : Watchful) (a : cloudwatch.Alarm) :
  let added := (topic_actions w
                  ++ (cloudwatch.ArnAction <$> this_alarmActionArns w))%list in
  cloudwatch.alarmActions (addAlarm w (addAlarm w a)) =
    (cloudwatch.alarmActions a ++ added ++ added)%list ∧
  (addAlarm w (addAlarm w a) = addAlarm w a ↔
   this_alarmTopic w = None ∧ this_alarmActionArns w = []).
Proof.
  intros added. rewrite !addAlarm_list. cbn. fold added.
  split; [by rewrite <- !app_assoc|]. split.
  - intros [= Heq]. rewrite <- app_assoc in Heq.
    apply app_inv_head in Heq.
    assert (added = []) as Hnil.
    { apply (f_equal length) in Heq. rewrite length_app in Heq.
      apply length_zero_iff_nil. lia. }
    subst added. apply app_eq_nil in Hnil as [Ht Ha].
    apply fmap_nil_inv in Ha.
    split; [|done]. unfold topic_actions in Ht.
    by destruct (this_alarmTopic w).
  - intros [Ht Ha]. subst added. unfold topic_actions.
    rewrite Ht, Ha. cbn. by rewrite !app_nil_r.
Qed.

(** X9: the actions [addAlarm] attaches are fixed by the props of the
    instance: the ARN actions are those of [alarmActionArns], none when it
    was omitted; in front of them comes one SNS action for the topic given as
    [alarmSns], or for the topic the constructor created under the node of the
    instance because a non-empty email or a queue was given, and no SNS
    action otherwise. *)
Theorem Watchful_new_addAlarm cfnRef scope id props σ w σ' (a : cloudwatch.Alarm) :
  Watchful_new cfnRef scope id props σ = (Normal w, σ') →
  let arns := cloudwatch.ArnAction <$> default [] (alarmActionArns props) in
  (∀ t, alarmSns props = Some t →
        cloudwatch.alarmActions (addAlarm w a) =
          (cloudwatch.alarmActions a ++ cloudwatch.SnsAction t :: arns)%list) ∧
  (alarmSns props = None → js_string (alarmEmail props) = None →
   alarmSqs props = None →
   cloudwatch.alarmActions (addAlarm w a) = (cloudwatch.alarmActions a ++ arns)%list) ∧
  (alarmSns props = None → requested_subscriptions props ≠ [] →
   ∃ t, topics σ !! t = None ∧
        topics σ' !! t =
          Some (alarm_topic (this_node w) (requested_subscriptions props)) ∧
        cloudwatch.alarmActions (addAlarm w a) =
          (cloudwatch.alarmActions a ++ cloudwatch.SnsAction t :: arns)%list).
Proof.
  intros Hrun arns. subst arns.
  apply Watchful_new_Normal in Hrun as (_ & [Hnode Harns] & Htop & _).
  cbn zeta in Htop. rewrite addAlarm_list, Harns. unfold topic_actions. cbn.
  split; [|split].
  - intros t Hs. rewrite Hs in Htop. destruct Htop as [-> _]. reflexivity.
  - intros Hs He Hq. rewrite Hs in Htop.
    unfold requested_subscriptions in Htop. rewrite He, Hq in Htop.
    destruct Htop as [-> _]. reflexivity.
  - intros Hs Hreq. rewrite Hs in Htop. exists (fresh (dom (topics σ))).
    split; [apply fresh_topic_unused|].
    destruct (requested_subscriptions props); [done|].
    destruct Htop as [-> ->]. rewrite Hnode.
    split; [by rewrite lookup_insert_eq | reflexivity].
Qed.

Lemma Watchful_new_addAlarm_witness :
  let props := mkProps None None (Some 0) None (Some ["arn:a"; "arn:b"]) None in
  let w := mkWatchful (child Sample.stack "watchful") (Some 0) (Some 0)
             ["arn:a"; "arn:b"] in
  cloudwatch.alarmActions (addAlarm w Sample.alarm) =
    (cloudwatch.alarmActions Sample.alarm ++
       [cloudwatch.SnsAction 0; cloudwatch.ArnAction "arn:a";
        cloudwatch.ArnAction "arn:b"])%list.
Proof.
  intros props w.
  apply (Watchful_new_addAlarm Sample.cfnRef Sample.stack "watchful" props
           Sample.world w
           (Watchful_new Sample.cfnRef Sample.stack "watchful" props
              Sample.world).2 Sample.alarm);
    [vm_compute; reflexivity | reflexivity].
Defined.

(** X10: alarms reach every requested destination.  After a successful
    construction (with a live topic, when one is given as [alarmSns]), every
    alarm attached through the instance gets an SNS action for a topic of the
    store to which each requested subscription, the non-empty email and the
    queue, has been added. *)
Theorem alarm_reaches_destinations cfnRef scope id props σ w σ' a s :
  (∀ t, alarmSns props = Some t → is_Some (topics σ !! t)) →
  Watchful_new cfnRef scope id props σ = (Normal w, σ') →
  s ∈ requested_subscriptions props →
  ∃ t T, cloudwatch.SnsAction t ∈ cloudwatch.alarmActions (addAlarm w a) ∧
         topics σ' !! t = Some T ∧ s ∈ sns.subscriptions T.
Proof.
  intros Hgiven Hrun Hs.
  pose proof (Watchful_new_Normal _ _ _ _ _ _ _ Hrun) as (_ & _ & Htop & _).
  cbn zeta in Htop. rewrite addAlarm_list. unfold topic_actions. cbn.
  destruct (alarmSns props) as [t|] eqn:Hsns.
  - destruct (Hgiven t eq_refl) as [T HT].
    destruct (provided_topic_after_new _ _ _ _ _ _ _ _ _ Hsns HT Hrun)
      as [Hw ->].
    rewrite Hw. exists t. eexists.
    split; [|split; [apply lookup_insert_eq|]].
    + apply elem_of_app. right. apply list_elem_of_here.
    + cbn. apply elem_of_app. by right.
  - destruct (requested_subscriptions props) as [|s' subs] eqn:Hreq.
    { by apply elem_of_nil in Hs. }
    destruct Htop as [-> ->].
    exists (fresh (dom (topics σ))). eexists.
    split; [|split; [apply lookup_insert_eq|]].
    + apply elem_of_app. right. apply list_elem_of_here.
    + exact Hs.
Qed.

Lemma alarm_reaches_destinations_witness :
  let props := mkProps (Some "ops@example.com") None None None None None in
  let w := mkWatchful (child Sample.stack "watchful") (Some 0) (Some 1) [] in
  let σ' := (Watchful_new Sample.cfnRef Sample.stack "watchful" props
               Sample.world).2 in
  ∃ t T, cloudwatch.SnsAction t ∈ cloudwatch.alarmActions (addAlarm w Sample.alarm) ∧
         topics σ' !! t = Some T ∧
         sns_subscriptions.EmailSubscription "ops@example.com" ∈ sns.subscriptions T.
Proof.
  intros props w σ'.
  apply (alarm_reaches_destinations Sample.cfnRef Sample.stack "watchful" props
           Sample.world w σ' Sample.alarm).
  - discriminate.
  - vm_compute. reflexivity.
  - vm_compute. apply list_elem_of_here.
Defined.

(** *** The console link *)

Lemma append_inj_l (p x y : string) : p +:+ x = p +:+ y → x = y.
Proof. induction p as [|c p IH]; cbn; [done|]. intros [= H]. by apply IH. Qed.

(** X12: within one region the console link identifies the dashboard: two
    dashboards of the same region have the same link only if they have the
    same reference. *)
Theorem linkForDashboard_inj (D1 D2 : cloudwatch.Dashboard) :
  cloudwatch.region D1 = cloudwatch.region D2 →
  linkForDashboard D1 = linkForDashboard D2 →
  cloudwatch.ref D1 = cloudwatch.ref D2.
Proof.
  unfold linkForDashboard. intros -> H.
  by do 3 apply append_inj_l in H.
Qed.

Lemma linkForDashboard_inj_witness :
  cloudwatch.ref
    (created_dashboard Sample.cfnRef Sample.stack "watchful" no_props) =
  cloudwatch.ref
    (cloudwatch.addWidgets [cloudwatch.Widget "{}"]
       (created_dashboard Sample.cfnRef Sample.stack "watchful"
          (mkProps None None None (Some "ops") None None))).
Proof.
  apply (linkForDashboard_inj
           (created_dashboard Sample.cfnRef Sample.stack "watchful" no_props)
           (cloudwatch.addWidgets [cloudwatch.Widget "{}"]
              (created_dashboard Sample.cfnRef Sample.stack "watchful"
                 (mkProps None None None (Some "ops") None None))));
    reflexivity.
Defined.

(** Across regions the link is ambiguous, since region and reference are
    concatenated as they are. *)
Example linkForDashboard_ambiguous :
  let D1 := cloudwatch.mkDashboard [] None "r" "a#dashboards:name=b" [] in
  let D2 := cloudwatch.mkDashboard [] None "r#dashboards:name=a" "b" [] in
  linkForDashboard D1 = linkForDashboard D2 ∧
  cloudwatch.ref D1 ≠ cloudwatch.ref D2.
Proof. split; [reflexivity | discriminate]. Qed.

(** *** Alarm wiring and dashboard are independent *)

Lemma alarm_wiring_options this props1 props2 σ :
  alarmEmail props1 = alarmEmail props2 → alarmSqs props1 = alarmSqs props2 →
  alarmSns props1 = alarmSns props2 →
  alarm_wiring this props1 σ = alarm_wiring this props2 σ.
Proof. intros He Hq Hs. unfold alarm_wiring. by rewrite He, Hq, Hs. Qed.

(** X13: the two halves of the constructor do not interfere.  The topics of
    the store after a call depend only on [alarmEmail], [alarmSqs] and
    [alarmSns], whatever the outcome of the call; and when two calls both
    succeed, the dashboards, the outputs and the dashboard the instance holds
    depend only on [dashboard] and [dashboardName]. *)
Theorem Watchful_new_independent cfnRef scope id props1 props2 σ :
  let r1 := Watchful_new cfnRef scope id props1 σ in
  let r2 := Watchful_new cfnRef scope id props2 σ in
  (alarmEmail props1 = alarmEmail props2 → alarmSqs props1 = alarmSqs props2 →
   alarmSns props1 = alarmSns props2 → topics r1.2 = topics r2.2) ∧
  (dashboard props1 = dashboard props2 →
   dashboardName props1 = dashboardName props2 →
   ∀ w1 w2, r1.1 = Normal w1 → r2.1 = Normal w2 →
   dashboards r1.2 = dashboards r2.2 ∧ outputs r1.2 = outputs r2.2 ∧
   this_dash w1 = this_dash w2).
Proof.
  intros r1 r2. subst r1 r2. split.
  - intros He Hq Hs. rewrite !Watchful_new_phases.
    destruct (new_Construct scope id σ) as [[this|e] σ0]; [|done].
    rewrite (alarm_wiring_options this props1 props2 σ0 He Hq Hs).
    destruct (alarm_wiring this props2 σ0) as [[topic|e] σ1]; [|done].
    destruct (dashboard_setup cfnRef this props1 σ1) as [[d1|e1] σ2] eqn:H1;
      destruct (dashboard_setup cfnRef this props2 σ1) as [[d2|e2] σ3] eqn:H2;
      apply dashboard_setup_spec in H1 as ((Ht1 & _) & _);
      apply dashboard_setup_spec in H2 as ((Ht2 & _) & _);
      cbn [snd]; congruence.
  - intros Hd Hn w1 w2 Hr1 Hr2.
    destruct (Watchful_new cfnRef scope id props1 σ) as [r1 σ1] eqn:Hrun1.
    destruct (Watchful_new cfnRef scope id props2 σ) as [r2 σ2] eqn:Hrun2.
    cbn in Hr1, Hr2. subst r1 r2. cbn [snd].
    apply Watchful_new_Normal in Hrun1 as (_ & _ & _ & H1).
    apply Watchful_new_Normal in Hrun2 as (_ & _ & _ & H2).
    cbn zeta in H1, H2.
    assert (dashboard_of cfnRef (child scope id) props1 =
            dashboard_of cfnRef (child scope id) props2) as Hc
      by (unfold dashboard_of; by rewrite Hn).
    rewrite Hd, Hc in H1.
    destruct (is_false (dashboard props2)).
    + destruct H1 as (-> & -> & ->), H2 as (-> & -> & ->). done.
    + destruct H1 as (-> & -> & ->), H2 as (-> & -> & ->). done.
Qed.

Lemma Watchful_new_independent_witness :
  topics (Watchful_new Sample.cfnRef Sample.stack "watchful"
            (mkProps (Some "ops@example.com") None None (Some "ops") None
               (Some false)) Sample.world).2 =
  topics (Watchful_new Sample.cfnRef Sample.stack "watchful"
            (mkProps (Some "ops@example.com") None None None (Some ["arn:a"])
               None) Sample.world).2.
Proof.
  apply (Watchful_new_independent Sample.cfnRef Sample.stack "watchful"
           (mkProps (Some "ops@example.com") None None (Some "ops") None
              (Some false))
           (mkProps (Some "ops@example.com") None None None (Some ["arn:a"])
              None) Sample.world); reflexivity.
Defined.

(** *** Where the new constructs are placed *)



(** *** Empty options *)

(** X15: empty values behave as omitted ones.  A call with [alarmEmail] the
    empty string returns the same instance and store as the call without
    [alarmEmail], and a call with an empty list of [alarmActionArns] the same
    as the call without the list, whatever the other props are. *)
Theorem Watchful_new_empty_as_omitted cfnRef scope id e q t n arns d σ :
  Watchful_new cfnRef scope id (mkProps (Some "") q t n arns d) σ =
    Watchful_new cfnRef scope id (mkProps None q t n arns d) σ ∧
  Watchful_new cfnRef scope id (mkProps e q t n (Some []) d) σ =
    Watchful_new cfnRef scope id (mkProps e q t n None d) σ.
Proof. split; reflexivity. Qed.

(** *** A rejected call is not undone *)

(** X3: when the constructor raises the dashboard-name error it has created
    no dashboard and no output, and no topic has changed if no non-empty
    email and no queue was given; but [super(scope, id)] has already
    registered the node of the instance, so a second construction with the
    same scope and id fails on the taken id, whatever its props. *)
Theorem Watchful_new_rejected_store cfnRef scope id props σ σ' :
  Watchful_new cfnRef scope id props σ = (Throw dashboard_name_error, σ') →
  dashboards σ' = dashboards σ ∧ outputs σ' = outputs σ ∧
  (js_string (alarmEmail props) = None → alarmSqs props = None →
   topics σ' = topics σ) ∧
  (nodePath (child scope id) ∉ tree σ) ∧ nodePath (child scope id) ∈ tree σ' ∧
  ∀ props2, Watchful_new cfnRef scope id props2 σ' =
              (Throw (DuplicateConstruct (nodePath (child scope id))), σ').
Proof.
  intros Hrun.
  apply Watchful_new_config_error in Hrun as (_ & Hid & Hnew & topic & Hw).
  cbn zeta in Hnew.
  apply alarm_wiring_spec in Hw as (Hd & Ho & Hwt).
  cbn [register topics dashboards outputs tree] in *.
  assert (nodePath (child scope id) ∈ tree σ') as Hin.
  { destruct (alarmSns props).
    - destruct Hwt as [Hsub _]. clear -Hsub. set_solver.
    - destruct (requested_subscriptions props).
      + destruct Hwt as [_ ->]. cbn. clear. set_solver.
      + destruct Hwt as [[(e & [=] & _) _]|(_ & _ & Hsub)].
        clear -Hsub. set_solver. }
  split; [done|]. split; [done|]. split; [|split; [done|split; [done|]]].
  - intros He Hq. unfold requested_subscriptions in Hwt. rewrite He, Hq in Hwt.
    cbn in Hwt. destruct (alarmSns props).
    + destruct Hwt as (_ & subs & -> & [[_ ->]|(e & [=] & _)]).
      apply alter_subscribed_nil.
    + by destruct Hwt as [_ ->].
  - intros props2. rewrite Watchful_new_phases.
    destruct (new_Construct_cases scope id σ')
      as [[? _]|[(_ & _ & ->)|(_ & Hout & _)]]; done.
Qed.

Lemma Watchful_new_rejected_store_witness :
  let props := mkProps (Some "") None (Some 0) (Some "ops") None (Some false) in
  let σ' := register ["MyStack"; "watchful"] Sample.world in
  Watchful_new Sample.cfnRef Sample.stack "watchful" no_props σ' =
    (Throw (DuplicateConstruct ["MyStack"; "watchful"]), σ').
Proof.
  intros props σ'.
  apply (Watchful_new_rejected_store Sample.cfnRef Sample.stack "watchful" props
           Sample.world σ'). vm_compute. reflexivity.
Defined.
